(** * Ecosystem map: filter state, query engine, colour map and activity label

    A shallow embedding of the catalogue logic of the ecosystem map front end:

    - [Js]: the JavaScript primitives the components rely on (own-property
      order of plain objects, property assignment and definition, object
      spread, the order [<] on strings, [String.prototype.trim], [includes],
      [Array.prototype.pop]);
    - [Card]: [getActivityIndicator] and the activity read-out of
      [features/Card.tsx];
    - [EcosystemMap]: the container of [features/EcosystemMap.tsx]
      (dimensions category, layer, target_audience, ecosystem);
    - [StatusMap]: the second container, keyed on the readiness status, with
      per-value counts and free-text search.

    A string of the program is represented by its UTF-8 encoding, a byte
    string (a surrogate that stands alone, by the three bytes of its code
    point); the order on strings, the substring test and the white-space
    class are those of the language, computed on the UTF-16 code units and
    the code points that the bytes encode.  The case mapping [String.prototype.toLowerCase] depends
    on the Unicode tables of the runtime and is a parameter of the search.
    Numbers that the code handles as timestamps are integers ([Z]); the
    palette entries are lists of naturals. *)

From Stdlib Require Import String Ascii List ZArith NArith Bool Lia.
From Stdlib Require Import DecimalString Permutation Sorted.
Import ListNotations.

Open Scope string_scope.
Open Scope list_scope.

(* ================================================================== *)
(** ** JavaScript primitives *)

Module Js.

(** *** Property keys *)

Definition digit_value (c : ascii) : option N :=
  let n := N_of_ascii c in
  if ((48 <=? n) && (n <=? 57))%N then Some (n - 48)%N else None.

Fixpoint digits_value (s : string) (acc : N) : option N :=
  match s with
  | EmptyString => Some acc
  | String c s' =>
      match digit_value c with
      | Some d => digits_value s' (acc * 10 + d)%N
      | None => None
      end
  end.

(** An array index is a canonical decimal numeral (no leading zero, no sign)
    whose value is at most 2^32 - 2. *)
Definition array_index (k : string) : option N :=
  match k with
  | EmptyString => None
  | String "0" EmptyString => Some 0%N
  | String "0" _ => None
  | _ =>
      match digits_value k 0 with
      | Some n => if (n <? 4294967295)%N then Some n else None
      | None => None
      end
  end.

(** [precedes k' k]: an existing key [k'] stays in front of a freshly created
    key [k].  Array indices come first, in ascending numeric order; the other
    keys follow in creation order. *)
Definition precedes (k' k : string) : bool :=
  match array_index k', array_index k with
  | Some i, Some j => (i <=? j)%N
  | Some _, None => true
  | None, Some _ => false
  | None, None => true
  end.

(** The names every plain object inherits from [Object.prototype]; each of
    them reads as a truthy value (a function, or the prototype object). *)
Definition prototype_names : list string :=
  [ "constructor"; "hasOwnProperty"; "isPrototypeOf"; "propertyIsEnumerable";
    "toLocaleString"; "toString"; "valueOf"; "__proto__";
    "__defineGetter__"; "__defineSetter__";
    "__lookupGetter__"; "__lookupSetter__" ].

Definition inherited (k : string) : bool :=
  existsb (String.eqb k) prototype_names.

(** *** Plain objects used as string-keyed maps

    An object is the list of its own enumerable properties, kept in the order
    in which [Object.keys] lists them. *)

Section Obj.
Context {V : Type}.

Definition obj := list (string * V).

Definition empty : obj := [].

Definition keys (o : obj) : list string := map fst o.

Fixpoint get_own (o : obj) (k : string) : option V :=
  match o with
  | [] => None
  | (k', v) :: t => if String.eqb k' k then Some v else get_own t k
  end.

Definition has_own (o : obj) (k : string) : bool :=
  match get_own o k with Some _ => true | None => false end.

(** Overwrite the value of an existing own property; its place is kept. *)
Fixpoint update (o : obj) (k : string) (v : V) : obj :=
  match o with
  | [] => []
  | (k', v') :: t =>
      if String.eqb k' k then (k', v) :: t else (k', v') :: update t k v
  end.

(** Create a property that is not an own one yet. *)
Fixpoint insert_new (o : obj) (k : string) (v : V) : obj :=
  match o with
  | [] => [(k, v)]
  | (k', v') :: t =>
      if precedes k' k then (k', v') :: insert_new t k v
      else (k, v) :: (k', v') :: t
  end.

(** [{ ..., [k]: v }] and the copy made by a spread: CreateDataProperty. *)
Definition define (o : obj) (k : string) (v : V) : obj :=
  if has_own o k then update o k v else insert_new o k v.

(** [o[k] = v] for a primitive [v]: an own property is overwritten; a new
    one is created, except for ["__proto__"], whose inherited setter
    ignores a value that is neither an object nor null. *)
Definition assign (o : obj) (k : string) (v : V) : obj :=
  if has_own o k then update o k v
  else if String.eqb k "__proto__" then o
  else insert_new o k v.

(** [{ ...o }]: the own properties are copied in key order. *)
Definition spread (o : obj) : obj :=
  fold_left (fun acc kv => define acc (fst kv) (snd kv)) o empty.

(** Representation invariant: the list is in own-key order and no key is
    repeated. *)
Fixpoint ordered (ks : list string) : bool :=
  match ks with
  | [] => true
  | k :: t =>
      forallb (precedes k) t && negb (existsb (String.eqb k) t) && ordered t
  end.

Definition wf (o : obj) : Prop := ordered (keys o) = true.

End Obj.

Arguments obj : clear implicits.

(** [o[k]] used as a condition, for an object of booleans. *)
Definition truthy_get (o : obj bool) (k : string) : bool :=
  match get_own o k with
  | Some b => b
  | None => inherited k
  end.

(** *** Arrays *)

(** [a.pop()]: the removed last element (if any) and the array left. *)
Definition pop {A : Type} (a : list A) : option A * list A :=
  match rev a with
  | [] => (None, [])
  | x :: r => (Some x, rev r)
  end.

(** [a?.find((d) => d === c)] used as a condition: the element found must
    itself be truthy, that is a non-empty string. *)
Definition find_eq (a : option (list string)) (c : string) : option string :=
  match a with
  | None => None
  | Some l => find (fun d => String.eqb d c) l
  end.

Definition truthy_string (s : option string) : bool :=
  match s with
  | Some (String _ _) => true
  | _ => false
  end.

(** *** Strings *)

Definition byte (c : ascii) : N := N_of_ascii c.

Definition continuation (b : N) : bool := ((128 <=? b) && (b <=? 191))%N.

(** The UTF-16 code units of the string that the bytes encode: one unit for
    a code point below 65536, a surrogate pair above.  A byte that starts no
    well-formed sequence counts as a unit of its own. *)
Fixpoint code_units (s : string) : list N :=
  match s with
  | EmptyString => []
  | String c1 s1 =>
      let b1 := byte c1 in
      if (b1 <? 128)%N then b1 :: code_units s1
      else
        match s1 with
        | EmptyString => [b1]
        | String c2 s2 =>
            let b2 := byte c2 in
            if ((192 <=? b1) && (b1 <=? 223))%N && continuation b2
            then ((b1 - 192) * 64 + (b2 - 128))%N :: code_units s2
            else
              match s2 with
              | EmptyString => b1 :: code_units s1
              | String c3 s3 =>
                  let b3 := byte c3 in
                  if ((224 <=? b1) && (b1 <=? 239))%N
                     && continuation b2 && continuation b3
                  then ((b1 - 224) * 4096 + (b2 - 128) * 64 + (b3 - 128))%N
                       :: code_units s3
                  else
                    match s3 with
                    | EmptyString => b1 :: code_units s1
                    | String c4 s4 =>
                        let b4 := byte c4 in
                        if ((240 <=? b1) && (b1 <=? 247))%N
                           && continuation b2 && continuation b3
                           && continuation b4
                        then
                          let v := ((b1 - 240) * 262144 + (b2 - 128) * 4096
                                    + (b3 - 128) * 64 + (b4 - 128)
                                    - 65536)%N in
                          (55296 + v / 1024)%N :: (56320 + v mod 1024)%N
                          :: code_units s4
                        else b1 :: code_units s1
                    end
              end
        end
  end.

(** Lexicographic comparison of code unit sequences; a proper prefix comes
    first. *)
Fixpoint compare_units (a b : list N) : comparison :=
  match a, b with
  | [], [] => Eq
  | [], _ :: _ => Lt
  | _ :: _, [] => Gt
  | x :: a', y :: b' =>
      match (x ?= y)%N with
      | Eq => compare_units a' b'
      | c => c
      end
  end.

(** [a < b] on strings *)
Definition lt (a b : string) : bool :=
  match compare_units (code_units a) (code_units b) with
  | Lt => true
  | _ => false
  end.

(** [a] is not after [b]: the order in which [sort] leaves two strings. *)
Definition le (a b : string) : bool := negb (lt b a).

(** White space and line terminators, by the bytes of their encoding:
    TAB, LF, VT, FF, CR, SP; U+00A0; U+1680, U+2000 to U+200A, U+2028,
    U+2029, U+202F, U+205F, U+3000 and U+FEFF. *)
Definition ws1 (b1 : N) : bool :=
  (((9 <=? b1) && (b1 <=? 13)) || (b1 =? 32))%N.

Definition ws2 (b1 b2 : N) : bool := ((b1 =? 194) && (b2 =? 160))%N.

Definition ws3 (b1 b2 b3 : N) : bool :=
  (((b1 =? 225) && (b2 =? 154) && (b3 =? 128))
   || ((b1 =? 226) && (b2 =? 128)
       && (((128 <=? b3) && (b3 <=? 138)) || (b3 =? 168) || (b3 =? 169)
           || (b3 =? 175)))
   || ((b1 =? 226) && (b2 =? 129) && (b3 =? 159))
   || ((b1 =? 227) && (b2 =? 128) && (b3 =? 128))
   || ((b1 =? 239) && (b2 =? 187) && (b3 =? 191)))%N.

Fixpoint trimStart (s : string) : string :=
  match s with
  | EmptyString => EmptyString
  | String c1 s1 =>
      if ws1 (byte c1) then trimStart s1
      else
        match s1 with
        | EmptyString => s
        | String c2 s2 =>
            if ws2 (byte c1) (byte c2) then trimStart s2
            else
              match s2 with
              | EmptyString => s
              | String c3 s3 =>
                  if ws3 (byte c1) (byte c2) (byte c3) then trimStart s3
                  else s
              end
        end
  end.

(** A string of white space only. *)
Definition blank (s : string) : bool :=
  match trimStart s with
  | EmptyString => true
  | String _ _ => false
  end.

(** Drops the trailing white space: the string is cut where what is left
    is white space only. *)
Fixpoint trimEnd (s : string) : string :=
  match s with
  | EmptyString => EmptyString
  | String c s' => if blank s then EmptyString else String c (trimEnd s')
  end.

Definition trim (s : string) : string := trimEnd (trimStart s).

Fixpoint units_prefix (t s : list N) : bool :=
  match t, s with
  | [], _ => true
  | _ :: _, [] => false
  | x :: t', y :: s' => (x =? y)%N && units_prefix t' s'
  end.

Fixpoint units_includes (s t : list N) : bool :=
  units_prefix t s ||
  match s with
  | [] => false
  | _ :: s' => units_includes s' t
  end.

(** [s.includes(t)]: the code units of [t] occur in a row in [s]. *)
Definition includes (s t : string) : bool :=
  units_includes (code_units s) (code_units t).

(** [a.join(",")] for an array of naturals. *)
Definition join_numbers (a : list N) : string :=
  String.concat "," (map (fun n => NilEmpty.string_of_uint (N.to_uint n)) a).

End Js.

(* ================================================================== *)
(** ** Project records (the fields of [ProjectInfo] the components read) *)

Module Project.

Record Sample := { date : string; value : Z }.

Record Metrics := { github_pushed_at : option (list Sample) }.

Record Readiness := { technology : option string }.

Record ProjectInfo := {
  name : string;
  description : string;
  category : option (list string);
  layer : option (list string);
  target_audience : option (list string);
  ecosystem : option (list string);
  readiness : option Readiness;
  metrics : option Metrics
}.

Definition set_metrics (p : ProjectInfo) (m : option Metrics) : ProjectInfo :=
  {| name := name p; description := description p; category := category p;
     layer := layer p; target_audience := target_audience p;
     ecosystem := ecosystem p; readiness := readiness p; metrics := m |}.

(** [p.readiness?.technology] *)
Definition readiness_technology (p : ProjectInfo) : option string :=
  match readiness p with
  | Some r => technology r
  | None => None
  end.

End Project.

(* ================================================================== *)
(** ** features/Card.tsx *)

Module Card.

Import Js.

Inductive Indicator := active | moderate | inactive | default.

Definition ACTIVITY_INDICATORS (i : Indicator) : string :=
  match i with
  | active => "Active 🟢"
  | moderate => "Moderate 🟡"
  | inactive => "Inactive 💤"
  | default => "Unknown ❔"
  end.

(** The largest time value of a [Date], in milliseconds either side of the
    epoch. *)
Definition MAX_TIME : Z := 8640000000000000.

(** [new Date(ms).getTime()]; [None] stands for NaN (invalid date). *)
Definition Date_getTime (ms : Z) : option Z :=
  if (Z.abs ms <=? MAX_TIME)%Z then Some ms else None.

Definition MS_PER_DAY : Z := 1000 * 60 * 60 * 24.

(** [Math.floor(diffMilliseconds / (1000 * 60 * 60 * 24))] *)
Definition diffDays (now lastPush : Z) : Z := ((now - lastPush) / MS_PER_DAY)%Z.

(** [now] is the reading of the clock, [new Date().getTime()]. *)
Definition getActivityIndicator (now : Z) (githubPushedAt : option Z) : string :=
  match githubPushedAt with
  | None => ACTIVITY_INDICATORS default
  | Some 0%Z => ACTIVITY_INDICATORS default
  | Some t =>
      match Date_getTime (t * 1000) with
      | None => ACTIVITY_INDICATORS default
      | Some lastPush =>
          let d := diffDays now lastPush in
          if (d <=? 90)%Z then ACTIVITY_INDICATORS active
          else if (d <=? 180)%Z then ACTIVITY_INDICATORS moderate
          else ACTIVITY_INDICATORS inactive
      end
  end.

(** [card.metrics?.github_pushed_at?.pop()?.value]: the value read and the
    card as the call leaves it. *)
Definition pop_github_pushed_at (card : Project.ProjectInfo)
  : option Z * Project.ProjectInfo :=
  match Project.metrics card with
  | None => (None, card)
  | Some m =>
      match Project.github_pushed_at m with
      | None => (None, card)
      | Some samples =>
          let (last, rest) := pop samples in
          (option_map Project.value last,
           Project.set_metrics card
             (Some {| Project.github_pushed_at := Some rest |}))
      end
  end.

(** One rendering of the card header: the label shown and the card after. *)
Definition Card (now : Z) (card : Project.ProjectInfo)
  : string * Project.ProjectInfo :=
  let (v, card') := pop_github_pushed_at card in
  (getActivityIndicator now v, card').

(** Successive renderings of the same card object. *)
Fixpoint render (now : Z) (n : nat) (card : Project.ProjectInfo)
  : list string * Project.ProjectInfo :=
  match n with
  | O => ([], card)
  | S n' =>
      let (l, card1) := Card now card in
      let (ls, card2) := render now n' card1 in
      (l :: ls, card2)
  end.

Definition samples (card : Project.ProjectInfo) : list Project.Sample :=
  match Project.metrics card with
  | Some m =>
      match Project.github_pushed_at m with
      | Some s => s
      | None => []
      end
  | None => []
  end.

End Card.

(* ================================================================== *)
(** ** Code shared by the two containers *)

Module Common.

Import Js.

Definition allowedEcosystems : list string :=
  [ "Acala Network"; "Aleph Zero"; "Astar Network";
    "Kusama"; "Moonbeam"; "Polkadot" ].

(** [allowedEcosystems.has(l)] *)
Definition allowed (l : string) : bool :=
  existsb (String.eqb l) allowedEcosystems.

(** [if (l)] on a string *)
Definition nonempty (l : string) : bool :=
  match l with
  | EmptyString => false
  | String _ _ => true
  end.

(** [a?.forEach((l) => { if (l) { o[l] = false; } })] *)
Definition mark (o : obj bool) (a : option (list string)) : obj bool :=
  match a with
  | None => o
  | Some ls =>
      fold_left (fun o l => if nonempty l then assign o l false else o) ls o
  end.

(** The same loop with the allow-list test of the ecosystem dimension. *)
Definition mark_allowed (o : obj bool) (a : option (list string)) : obj bool :=
  match a with
  | None => o
  | Some ls =>
      fold_left
        (fun o l =>
           if nonempty l then (if allowed l then assign o l false else o)
           else o)
        ls o
  end.

(** [Object.keys(o).filter((k) => o[k])] *)
Definition selected (o : obj bool) : list string :=
  filter (fun k => truthy_get o k) (keys o).

(** [sel.every((c) => a?.find((d) => d === c))] *)
Definition every_found (sel : list string) (a : option (list string)) : bool :=
  forallb (fun c => truthy_string (find_eq a c)) sel.

(** The palette entry used at position [idx]:
    [(colors[idx % colors.length] ?? [33, 150, 243]).join(",")]. *)
Definition color_at (colors : list (list N)) (idx : nat) : string :=
  join_numbers
    match length colors with
    | O => [33; 150; 243]%N
    | len =>
        match nth_error colors (idx mod len) with
        | Some e => e
        | None => [33; 150; 243]%N
        end
    end.

(** [ks.forEach((k, idx) => { c[k] = ...; })], starting from [idx]. *)
Fixpoint paint (colors : list (list N)) (ks : list string) (idx : nat)
  (c : obj string) : obj string :=
  match ks with
  | [] => c
  | k :: ks' => paint colors ks' (S idx) (assign c k (color_at colors idx))
  end.

(** The comparator of [sortProjects] for the column [name]. *)
Definition compare_by_name (asc : bool) (a b : Project.ProjectInfo) : Z :=
  let res :=
    if Js.lt (Project.name a) (Project.name b) then (-1)%Z
    else if Js.lt (Project.name b) (Project.name a) then 1%Z
    else 0%Z in
  if asc then res else (res * -1)%Z.

Fixpoint insert_sorted (asc : bool) (x : Project.ProjectInfo)
  (l : list Project.ProjectInfo) : list Project.ProjectInfo :=
  match l with
  | [] => [x]
  | y :: t =>
      if (compare_by_name asc x y <=? 0)%Z then x :: y :: t
      else y :: insert_sorted asc x t
  end.

(** [projects.sort(cmp)]: a stable sort. *)
Definition sort_projects (asc : bool) (l : list Project.ProjectInfo)
  : list Project.ProjectInfo :=
  fold_right (insert_sorted asc) [] l.

End Common.

(* ================================================================== *)
(** ** features/EcosystemMap.tsx: the container keyed on the layer *)

Module EcosystemMap.

Import Js Common.

(** [keyof IFilters] *)
Inductive TCategory := Kcategory | Klayer | Ktarget_audience | Kecosystem.

Record IFilters := {
  layer : obj bool;
  category : obj bool;
  target_audience : obj bool;
  ecosystem : obj bool
}.

(** [filters[type]] *)
Definition field (f : IFilters) (type : TCategory) : obj bool :=
  match type with
  | Kcategory => category f
  | Klayer => layer f
  | Ktarget_audience => target_audience f
  | Kecosystem => ecosystem f
  end.

(** [{ ...filters, [type]: o }] *)
Definition with_field (f : IFilters) (type : TCategory) (o : obj bool)
  : IFilters :=
  match type with
  | Kcategory =>
      {| layer := layer f; category := o;
         target_audience := target_audience f; ecosystem := ecosystem f |}
  | Klayer =>
      {| layer := o; category := category f;
         target_audience := target_audience f; ecosystem := ecosystem f |}
  | Ktarget_audience =>
      {| layer := layer f; category := category f;
         target_audience := o; ecosystem := ecosystem f |}
  | Kecosystem =>
      {| layer := layer f; category := category f;
         target_audience := target_audience f; ecosystem := o |}
  end.

(** [p[type]] for the four array-valued fields *)
Definition values (p : Project.ProjectInfo) (type : TCategory)
  : option (list string) :=
  match type with
  | Kcategory => Project.category p
  | Klayer => Project.layer p
  | Ktarget_audience => Project.target_audience p
  | Kecosystem => Project.ecosystem p
  end.

(** The React state of the component. *)
Record State := {
  ecosystemProjects : list Project.ProjectInfo;
  data : list Project.ProjectInfo;
  filters : IFilters;
  colorMap : obj string
}.

Definition initial : State :=
  {| ecosystemProjects := []; data := [];
     filters := {| layer := empty; category := empty;
                   target_audience := empty; ecosystem := empty |};
     colorMap := empty |}.

(** The conjunct of the filter predicate that belongs to one dimension. *)
Definition passes_dimension (f : IFilters) (type : TCategory)
  (p : Project.ProjectInfo) : bool :=
  every_found (selected (field f type)) (values p type).

(** The predicate given to [ecosystemProjects.filter]. *)
Definition passes (f : IFilters) (p : Project.ProjectInfo) : bool :=
  every_found (selected (category f)) (Project.category p) &&
  every_found (selected (layer f)) (Project.layer p) &&
  every_found (selected (target_audience f)) (Project.target_audience p) &&
  every_found (selected (ecosystem f)) (Project.ecosystem p).

Definition filterProjects (s : State) : State :=
  {| ecosystemProjects := ecosystemProjects s;
     data := filter (passes (filters s)) (ecosystemProjects s);
     filters := filters s;
     colorMap := colorMap s |}.

Definition toggleFilterByCategory (f : IFilters) (type : TCategory)
  (key : string) : IFilters :=
  with_field f type
    (define (spread (field f type)) key (negb (truthy_get (field f type) key))).

(** [setFilters(...)] of the toggle followed by the effect that recomputes
    the visible records. *)
Definition toggle (s : State) (type : TCategory) (key : string) : State :=
  filterProjects
    {| ecosystemProjects := ecosystemProjects s; data := data s;
       filters := toggleFilterByCategory (filters s) type key;
       colorMap := colorMap s |}.

(** The body of [d.forEach((c) => ...)] of the load effect. *)
Definition collect (f : IFilters) (c : Project.ProjectInfo) : IFilters :=
  {| layer := mark (layer f) (Project.layer c);
     category := mark (category f) (Project.category c);
     target_audience := mark (target_audience f) (Project.target_audience c);
     ecosystem := mark_allowed (ecosystem f) (Project.ecosystem c) |}.

Definition facets (d : list Project.ProjectInfo) : IFilters :=
  fold_left collect d
    {| layer := empty; category := empty;
       target_audience := empty; ecosystem := empty |}.

(** The sequence the colours are handed out over. *)
Definition traversal (f : IFilters) : list string :=
  keys (category f) ++ keys (layer f) ++
  keys (target_audience f) ++ keys (ecosystem f).

Definition colours (colors : list (list N)) (f : IFilters) : obj string :=
  paint colors (traversal f) 0 empty.

(** [sortProjects(projects)]; the sort state is fixed: column [name],
    ascending. *)
Definition sortProjects (s : State) (projects : list Project.ProjectInfo)
  : State :=
  {| ecosystemProjects := sort_projects true projects;
     data := data s; filters := filters s; colorMap := colorMap s |}.

(** The handler of the fetched document, followed by the recomputation of
    the visible records. [colors] is the palette of [utils/helper]. *)
Definition load (colors : list (list N)) (s : State)
  (d : list Project.ProjectInfo) : State :=
  let f := facets d in
  let c := colours colors f in
  filterProjects
    (sortProjects
       {| ecosystemProjects := ecosystemProjects s; data := data s;
          filters := f; colorMap := c |}
       d).

End EcosystemMap.

(* ================================================================== *)
(** ** The container keyed on the readiness status, with counts and search *)

Module StatusMap.

Import Js Common.

Inductive TCategory := Kcategory | Kstatus | Ktarget_audience | Kecosystem.

Record IFilters := {
  category : obj bool;
  status : obj bool;
  target_audience : obj bool;
  ecosystem : obj bool
}.

(** A value of a count map: a number or, when ["+ 1"] met an inherited
    member of the object, a piece of text. *)
Inductive count := Num (n : N) | Text.

Record Counts := {
  n_category : obj count;
  n_status : obj count;
  n_target_audience : obj count;
  n_ecosystem : obj count
}.

Definition field (f : IFilters) (type : TCategory) : obj bool :=
  match type with
  | Kcategory => category f
  | Kstatus => status f
  | Ktarget_audience => target_audience f
  | Kecosystem => ecosystem f
  end.

Definition with_field (f : IFilters) (type : TCategory) (o : obj bool)
  : IFilters :=
  match type with
  | Kcategory =>
      {| category := o; status := status f;
         target_audience := target_audience f; ecosystem := ecosystem f |}
  | Kstatus =>
      {| category := category f; status := o;
         target_audience := target_audience f; ecosystem := ecosystem f |}
  | Ktarget_audience =>
      {| category := category f; status := status f;
         target_audience := o; ecosystem := ecosystem f |}
  | Kecosystem =>
      {| category := category f; status := status f;
         target_audience := target_audience f; ecosystem := o |}
  end.

Record State := {
  ecosystemProjects : list Project.ProjectInfo;
  data : list Project.ProjectInfo;
  filters : IFilters;
  query : string;
  colorMap : obj string;
  counts : Counts
}.

Definition no_filters : IFilters :=
  {| category := empty; status := empty;
     target_audience := empty; ecosystem := empty |}.

Definition no_counts : Counts :=
  {| n_category := empty; n_status := empty;
     n_target_audience := empty; n_ecosystem := empty |}.

Definition initial : State :=
  {| ecosystemProjects := []; data := []; filters := no_filters;
     query := ""; colorMap := empty; counts := no_counts |}.

(** [sel.every((c) => p.readiness?.technology === c)] *)
Definition every_equal (sel : list string) (t : option string) : bool :=
  forallb
    (fun c => match t with Some x => String.eqb x c | None => false end) sel.

Section Search.

(** [String.prototype.toLowerCase], as the runtime computes it. *)
Variable toLowerCase : string -> string.

(** [query.trim().toLowerCase()] *)
Definition search_of (q : string) : string := toLowerCase (trim q).

(** The free-text disjunction of the filter predicate. *)
Definition matches_search (search : string) (p : Project.ProjectInfo) : bool :=
  negb (nonempty search)
  || includes (toLowerCase (Project.name p)) search
  || includes (toLowerCase (Project.description p)) search.

(** The conjunct of the filter predicate that belongs to one dimension. *)
Definition passes_dimension (f : IFilters) (type : TCategory)
  (p : Project.ProjectInfo) : bool :=
  match type with
  | Kcategory => every_found (selected (category f)) (Project.category p)
  | Kstatus => every_equal (selected (status f)) (Project.readiness_technology p)
  | Ktarget_audience =>
      every_found (selected (target_audience f)) (Project.target_audience p)
  | Kecosystem => every_found (selected (ecosystem f)) (Project.ecosystem p)
  end.

Definition passes (f : IFilters) (search : string) (p : Project.ProjectInfo)
  : bool :=
  every_found (selected (category f)) (Project.category p) &&
  every_equal (selected (status f)) (Project.readiness_technology p) &&
  every_found (selected (target_audience f)) (Project.target_audience p) &&
  every_found (selected (ecosystem f)) (Project.ecosystem p) &&
  matches_search search p.

Definition filterProjects (s : State) : State :=
  let search := search_of (query s) in
  {| ecosystemProjects := ecosystemProjects s;
     data := filter (passes (filters s) search) (ecosystemProjects s);
     filters := filters s; query := query s;
     colorMap := colorMap s; counts := counts s |}.

Definition toggleFilterByCategory (f : IFilters) (type : TCategory)
  (key : string) : IFilters :=
  with_field f type
    (define (spread (field f type)) key (negb (truthy_get (field f type) key))).

Definition toggle (s : State) (type : TCategory) (key : string) : State :=
  filterProjects
    {| ecosystemProjects := ecosystemProjects s; data := data s;
       filters := toggleFilterByCategory (filters s) type key;
       query := query s; colorMap := colorMap s; counts := counts s |}.

(** [setQuery(event.target.value)] and the recomputation it triggers. *)
Definition setQuery (s : State) (q : string) : State :=
  filterProjects
    {| ecosystemProjects := ecosystemProjects s; data := data s;
       filters := filters s; query := q;
       colorMap := colorMap s; counts := counts s |}.

(** [m[l] = (m[l] ?? 0) + 1] *)
Definition bump (m : obj count) (l : string) : obj count :=
  let current :=
    match get_own m l with
    | Some v => v
    | None => if inherited l then Text else Num 0
    end in
  assign m l (match current with Num n => Num (n + 1) | Text => Text end).

(** The loops of the load effect over one array-valued field: the filter map
    and the count map advance together. *)
Definition tally (allow : string -> bool) (fc : obj bool * obj count)
  (a : option (list string)) : obj bool * obj count :=
  match a with
  | None => fc
  | Some ls =>
      fold_left
        (fun fc l =>
           if nonempty l then
             (if allow l then (assign (fst fc) l false, bump (snd fc) l)
              else fc)
           else fc)
        ls fc
  end.

(** [if (c?.readiness?.technology) { ... }] *)
Definition tally_status (fc : obj bool * obj count) (t : option string)
  : obj bool * obj count :=
  match t with
  | Some l =>
      if nonempty l then (assign (fst fc) l false, bump (snd fc) l) else fc
  | None => fc
  end.

Definition collect (fc : IFilters * Counts) (c : Project.ProjectInfo)
  : IFilters * Counts :=
  let (f, n) := fc in
  let cat := tally (fun _ => true) (category f, n_category n)
               (Project.category c) in
  let sta := tally_status (status f, n_status n)
               (Project.readiness_technology c) in
  let aud := tally (fun _ => true) (target_audience f, n_target_audience n)
               (Project.target_audience c) in
  let eco := tally allowed (ecosystem f, n_ecosystem n)
               (Project.ecosystem c) in
  ({| category := fst cat; status := fst sta;
      target_audience := fst aud; ecosystem := fst eco |},
   {| n_category := snd cat; n_status := snd sta;
      n_target_audience := snd aud; n_ecosystem := snd eco |}).

Definition facets (d : list Project.ProjectInfo) : IFilters * Counts :=
  fold_left collect d (no_filters, no_counts).

Definition traversal (f : IFilters) : list string :=
  keys (category f) ++ keys (status f) ++
  keys (target_audience f) ++ keys (ecosystem f).

Definition colours (colors : list (list N)) (f : IFilters) : obj string :=
  paint colors (traversal f) 0 empty.

Definition load (colors : list (list N)) (s : State)
  (d : list Project.ProjectInfo) : State :=
  let (f, n) := facets d in
  filterProjects
    {| ecosystemProjects := sort_projects true d; data := data s;
       filters := f; query := query s;
       colorMap := colours colors f; counts := n |}.

End Search.

End StatusMap.

(* ================================================================== *)
(** ** Reference definitions used to state the properties *)

Module Reference.

Import Js Common.

(** The strings of [ls] that satisfy [keep], each once, in the order of
    their first appearance. *)
Definition first_seen (keep : string -> bool) (ls : list string)
  : list string :=
  fold_left
    (fun acc l =>
       if keep l && negb (existsb (String.eqb l) acc) then acc ++ [l]
       else acc)
    ls [].

(** The values a record sequence carries in one array-valued field, in
    record order. *)
Definition carried (get : Project.ProjectInfo -> option (list string))
  (d : list Project.ProjectInfo) : list string :=
  flat_map (fun c => match get c with Some ls => ls | None => [] end) d.

(** A key that is an array index, and one that is not. *)
Definition is_index (k : string) : bool :=
  match array_index k with
  | Some _ => true
  | None => false
  end.

Definition plain (k : string) : bool := negb (is_index k).

(** Two array indices, the first not above the second. *)
Definition index_le (a b : string) : Prop :=
  exists i j, array_index a = Some i /\ array_index b = Some j /\ (i <= j)%N.

(** A value the load effect can enter into a filter map. *)
Definition enterable (l : string) : bool :=
  nonempty l && negb (String.eqb l "__proto__").

(** Alphabetical order on facet values, as [Array.prototype.sort] without a
    comparator orders strings. *)
Fixpoint alphabetical (ks : list string) : bool :=
  match ks with
  | [] => true
  | k :: t => forallb (fun x => Js.le k x) t && alphabetical t
  end.

End Reference.

(* ================================================================== *)
(** ** Sample data *)

Module Sample.

Definition project (n desc : string) (cat eco : list string)
  (pushed : list Z) : Project.ProjectInfo :=
  {| Project.name := n;
     Project.description := desc;
     Project.category := Some cat;
     Project.layer := Some ["Layer-3"];
     Project.target_audience := Some ["Dev teams"];
     Project.ecosystem := Some eco;
     Project.readiness :=
       Some {| Project.technology := Some "In production" |};
     Project.metrics :=
       Some {| Project.github_pushed_at :=
                 Some (map (fun v => {| Project.date := "2023-11-01";
                                        Project.value := v |}) pushed) |} |}.

Definition acala : Project.ProjectInfo :=
  project "Acala" "DeFi platform of the Polkadot ecosystem"
    ["DeFi"] ["Polkadot"; "Acala Network"] [1690000000; 1699000000]%Z.

Definition moonbeam : Project.ProjectInfo :=
  project "Moonbeam" "Ethereum-compatible smart contract parachain"
    ["EVM"] ["Moonbeam"; "Ethereum"] [1690000000; 0]%Z.

Definition talisman : Project.ProjectInfo :=
  project "Talisman" "Wallet for Polkadot and Ethereum"
    ["Wallet"] ["Polkadot"] [1690000000]%Z.

Definition subscan : Project.ProjectInfo :=
  project "Subscan" "Explorer with an open API"
    ["API"] ["Polkadot"] []%Z.

(** A record whose categories mix array indices and other names. *)
Definition numbered : Project.ProjectInfo :=
  project "Numbered" "Categories that look like numbers"
    ["b"; "10"; "a"; "2"] ["Polkadot"] []%Z.

(** A record with a given technology readiness. *)
Definition staged (n tech : string) : Project.ProjectInfo :=
  {| Project.name := n;
     Project.description := "";
     Project.category := None;
     Project.layer := None;
     Project.target_audience := None;
     Project.ecosystem := None;
     Project.readiness := Some {| Project.technology := Some tech |};
     Project.metrics := None |}.

Definition stages : list Project.ProjectInfo :=
  [ staged "A" "In research"; staged "B" "Sunset";
    staged "C" "Connected to Relay chain"; staged "D" "Archived";
    staged "E" "In production" ].

Definition palette : list (list N) :=
  [[244; 67; 54]; [33; 150; 243]; [76; 175; 80]]%N.

(** The case mapping on ASCII text, where every runtime agrees: A to Z go
    to a to z and nothing else moves.  The sample records and queries are
    ASCII text. *)
Definition lower_byte (c : ascii) : ascii :=
  let n := nat_of_ascii c in
  if (65 <=? n)%nat && (n <=? 90)%nat then ascii_of_nat (n + 32) else c.

Fixpoint lower (s : string) : string :=
  match s with
  | EmptyString => EmptyString
  | String c s' => String (lower_byte c) (lower s')
  end.

(** 14 November 2023, 22:13:20 UTC, in milliseconds. *)
Definition now : Z := 1700000000000.

End Sample.

(* ================================================================== *)
(** ** features/Card.tsx: the readiness label *)

Module Readiness.

Import Common.

Definition getReadinessStatus (technology : option string) : string :=
  match technology with
  | None => "❔ Unknown"
  | Some t =>
      if negb (nonempty t) then "❔ Unknown"
      else if String.eqb t "Connected to Relay chain"
              || String.eqb t "Connected to Parachain"
              || String.eqb t "In production"
      then ("⚡️ " ++ t)%string
      else if String.eqb t "In research" then ("🔬 " ++ t)%string
      else if String.eqb t "In development" then ("🚀 " ++ t)%string
      else if String.eqb t "Validated POC / testnet" then ("⚠️ " ++ t)%string
      else if String.eqb t "Discontinued" then ("💤 " ++ t)%string
      else t
  end.

(** The icons a label can start with; the last entry is the empty one of
    the [default] branch. *)
Definition icons : list string :=
  [ "⚡️ "; "🔬 "; "🚀 "; "⚠️ "; "💤 "; "" ].

End Readiness.

(* ================================================================== *)
(** ** features/ChipFilterBlock.tsx and features/Chip.tsx *)

Module ChipFilterBlock.

Import Js.

(** [filters[item] !== undefined]: an own flag is a boolean, an inherited
    member is an object. *)
Definition defined (filters : obj bool) (item : string) : bool :=
  has_own filters item || inherited item.

(** [order.includes(item)] *)
Definition includes_item (order : list string) (item : string) : bool :=
  existsb (String.eqb item) order.

Fixpoint insert_string (x : string) (l : list string) : list string :=
  match l with
  | [] => [x]
  | y :: t => if le x y then x :: y :: t else y :: insert_string x t
  end.

(** [a.sort()] on strings: ascending by UTF-16 code unit, stable. *)
Definition sort (a : list string) : list string :=
  fold_right insert_string [] a.

(** The chips of a block, in display order. *)
Definition ordered (order : option (list string)) (filters : obj bool)
  : list string :=
  match order with
  | Some order =>
      filter (defined filters) order
      ++ sort (filter (fun item => negb (includes_item order item))
                 (keys filters))
  | None => sort (keys filters)
  end.

(** [filters[label]] as the condition of the class [chip--active]. *)
Definition active (filters : obj bool) (label : string) : bool :=
  truthy_get filters label.

End ChipFilterBlock.

(* ================================================================== *)
(** ** The category groups and chip orders of the status container *)

Module Groups.

Import Js.

Definition categoryGroups : list (string * list string) :=
  [ ("Infrastructure",
     [ "API"; "Data"; "Indexer"; "Infra"; "Library"; "Oracle"; "Tools";
       "XCM"; "Bridge"; "Smart Contracts"; "EVM" ]);
    ("Finance & Markets",
     [ "DeFi"; "Exchange"; "Staking"; "Wallet"; "Marketplace";
       "Aggregator" ]);
    ("Community & Governance",
     [ "DAO"; "Governance"; "Identity"; "Privacy"; "Social"; "Newsletter";
       "Alerts"; "Education"; "Video" ]);
    ("Apps & Experiences", [ "Dapp"; "Game"; "NFT"; "DePIN" ]) ].

Definition statusOrder : list string :=
  [ "Connected to Relay chain"; "Connected to Parachain"; "In production";
    "In development"; "Validated POC / testnet"; "In research";
    "Discontinued" ].

Definition ecosystemOrder : list string := [ "Polkadot"; "Kusama" ].

(** The groups that are rendered: each with its items that are facet
    values, the groups left without an item dropped. *)
Definition shown_groups (cat : obj bool) : list (string * list string) :=
  filter (fun g => match snd g with [] => false | _ :: _ => true end)
    (map (fun g => (fst g, filter (ChipFilterBlock.defined cat) (snd g)))
       categoryGroups).

(** [!categoryGroups.some((group) => group.items.includes(item))] *)
Definition ungrouped (item : string) : bool :=
  negb (existsb (fun g => ChipFilterBlock.includes_item (snd g) item)
          categoryGroups).

(** The group "Other": rendered when some key is in no group. *)
Definition other_group (cat : obj bool) : option (list string) :=
  if existsb ungrouped (keys cat)
  then Some (ChipFilterBlock.sort (filter ungrouped (keys cat)))
  else None.

(** All the category chips, in the order of the page. *)
Definition category_chips (cat : obj bool) : list string :=
  flat_map snd (shown_groups cat)
  ++ match other_group cat with Some l => l | None => [] end.

(** The [order] handed to the block of a dimension. *)
Definition block_order (cat : StatusMap.TCategory) : option (list string) :=
  match cat with
  | StatusMap.Kstatus => Some statusOrder
  | StatusMap.Kecosystem => Some ecosystemOrder
  | _ => None
  end.

End Groups.

(* ================================================================== *)
(** ** Insertion sort, the common shape of the two sorts *)

Module Insertion.

Section Insertion.
Context {A : Type} (le : A -> A -> bool).

Fixpoint insert (x : A) (l : list A) : list A :=
  match l with
  | [] => [x]
  | y :: t => if le x y then x :: y :: t else y :: insert x t
  end.

Definition isort (l : list A) : list A := fold_right insert [] l.

End Insertion.

(** The order the comparator of [sortProjects] induces on records. *)
Definition name_le (asc : bool) (a b : Project.ProjectInfo) : bool :=
  if asc then Js.le (Project.name a) (Project.name b)
  else Js.le (Project.name b) (Project.name a).

(** Strings in ascending order. *)
Definition alphabetic (l : list string) : Prop :=
  StronglySorted (fun a b => Js.le a b = true) l.

(** Records in ascending order of name. *)
Definition by_name (l : list Project.ProjectInfo) : Prop :=
  StronglySorted
    (fun a b => Js.le (Project.name a) (Project.name b) = true) l.

End Insertion.

(* ================================================================== *)
(** ** The status container: per-dimension views *)

Module StatusView.

Import Js StatusMap.

(** [counts[cat]] *)
Definition counts_of (n : Counts) (cat : TCategory) : obj count :=
  match cat with
  | Kcategory => n_category n
  | Kstatus => n_status n
  | Ktarget_audience => n_target_audience n
  | Kecosystem => n_ecosystem n
  end.

(** The values a record offers to the load effect in a dimension: the
    array of the field, and for the status the technology readiness alone. *)
Definition values (p : Project.ProjectInfo) (cat : TCategory)
  : option (list string) :=
  match cat with
  | Kcategory => Project.category p
  | Kstatus => option_map (fun t => [t]) (Project.readiness_technology p)
  | Ktarget_audience => Project.target_audience p
  | Kecosystem => Project.ecosystem p
  end.

(** The test a value passes to be counted in a dimension, the test for
    non-emptiness apart. *)
Definition allow (cat : TCategory) : string -> bool :=
  match cat with
  | Kecosystem => Common.allowed
  | _ => fun _ => true
  end.

End StatusView.

(* ================================================================== *)
(** ** Sessions: a load followed by clicks on chips *)

Module Session.

(** The state of the container keyed on the layer after a load and a run of
    toggles. *)
Definition after_toggles (colors : list (list N)) (s0 : EcosystemMap.State)
  (d : list Project.ProjectInfo)
  (clicks : list (EcosystemMap.TCategory * string)) : EcosystemMap.State :=
  fold_left (fun s tk => EcosystemMap.toggle s (fst tk) (snd tk)) clicks
    (EcosystemMap.load colors s0 d).

End Session.

(* ================================================================== *)
(** ** Facts about the JavaScript primitives *)

Module JsFacts.

Import Js.

Lemma precedes_total (a b : string) :
  precedes a b = false -> precedes b a = true.
Proof.
  unfold precedes.
  destruct (array_index a) as [i|], (array_index b) as [j|];
    try discriminate; try reflexivity.
  rewrite N.leb_gt, N.leb_le. lia.
Qed.

Lemma precedes_trans (a b c : string) :
  precedes a b = true -> precedes b c = true -> precedes a c = true.
Proof.
  unfold precedes.
  destruct (array_index a) as [i|], (array_index b) as [j|],
    (array_index c) as [k|]; try discriminate; try reflexivity.
  rewrite !N.leb_le. lia.
Qed.

Lemma precedes_plain (a k : string) :
  array_index k = None -> precedes a k = true.
Proof.
  unfold precedes. intros ->. now destruct (array_index a).
Qed.

Section ObjFacts.
Context {V : Type}.
Implicit Types (o : obj V) (k : string) (v : V).

Lemma get_own_None o k : get_own o k = None <-> ~ In k (keys o).
Proof.
  induction o as [|[k' v'] t IH]; simpl.
  - tauto.
  - destruct (String.eqb_spec k' k) as [->|Hne].
    + split; [discriminate | intros H; exfalso; apply H; now left].
    + rewrite IH. split.
      * intros H [E|HI]; [now apply Hne | now apply H].
      * intros H HI. apply H. now right.
Qed.

Lemma has_own_true o k : has_own o k = true <-> In k (keys o).
Proof.
  unfold has_own. destruct (get_own o k) eqn:E.
  - split; [intros _ | reflexivity].
    destruct (in_dec string_dec k (keys o)) as [HI|HI]; [exact HI|].
    apply get_own_None in HI. congruence.
  - split; [discriminate|]. intros HI. apply get_own_None in E. tauto.
Qed.

Lemma has_own_false o k : has_own o k = false <-> ~ In k (keys o).
Proof.
  rewrite <- has_own_true. destruct (has_own o k); split; congruence.
Qed.

Lemma keys_update o k v : keys (update o k v) = keys o.
Proof.
  induction o as [|[k' v'] t IH]; simpl; [reflexivity|].
  destruct (String.eqb k' k); simpl; [reflexivity | now rewrite IH].
Qed.

Lemma get_own_update_same o k v :
  has_own o k = true -> get_own (update o k v) k = Some v.
Proof.
  unfold has_own. induction o as [|[k' v'] t IH]; simpl; [discriminate|].
  destruct (String.eqb k' k) eqn:E; simpl; rewrite E; auto.
Qed.

Lemma get_own_update_other o k k' v :
  k' <> k -> get_own (update o k v) k' = get_own o k'.
Proof.
  intros Hne. induction o as [|[k0 v0] t IH]; simpl; [reflexivity|].
  destruct (String.eqb_spec k0 k) as [->|Hk]; simpl.
  - destruct (String.eqb_spec k k'); [congruence | reflexivity].
  - now rewrite IH.
Qed.

Lemma update_update o k v v' : update (update o k v) k v' = update o k v'.
Proof.
  induction o as [|[k' w] t IH]; simpl; [reflexivity|].
  destruct (String.eqb k' k) eqn:E; simpl; rewrite E;
    [reflexivity | now rewrite IH].
Qed.

Lemma update_same o k v : get_own o k = Some v -> update o k v = o.
Proof.
  induction o as [|[k' w] t IH]; simpl; [reflexivity|].
  destruct (String.eqb k' k) eqn:E.
  - now intros [= ->].
  - intros H. now rewrite IH.
Qed.

Lemma in_keys_insert_new o k v x :
  In x (keys (insert_new o k v)) <-> x = k \/ In x (keys o).
Proof.
  induction o as [|[k' w] t IH]; simpl.
  - intuition.
  - destruct (precedes k' k); simpl; [rewrite IH|]; intuition.
Qed.

Lemma get_own_insert_new_same o k v :
  get_own o k = None -> get_own (insert_new o k v) k = Some v.
Proof.
  induction o as [|[k' w] t IH]; simpl.
  - now rewrite String.eqb_refl.
  - destruct (String.eqb k' k) eqn:E; [discriminate|]. intros H.
    destruct (precedes k' k); simpl.
    + rewrite E. auto.
    + now rewrite String.eqb_refl.
Qed.

Lemma get_own_insert_new_other o k k' v :
  k' <> k -> get_own (insert_new o k v) k' = get_own o k'.
Proof.
  intros Hne. induction o as [|[k0 w] t IH]; simpl.
  - destruct (String.eqb_spec k k'); [congruence | reflexivity].
  - destruct (precedes k0 k); simpl.
    + now rewrite IH.
    + destruct (String.eqb_spec k k'); [congruence | reflexivity].
Qed.

Lemma insert_new_append o k v :
  (forall a, In a (keys o) -> precedes a k = true) ->
  insert_new o k v = o ++ [(k, v)].
Proof.
  induction o as [|[k' w] t IH]; simpl; intros H; [reflexivity|].
  rewrite (H k' (or_introl eq_refl)). f_equal. apply IH. auto.
Qed.

Lemma insert_new_plain o k v :
  array_index k = None -> insert_new o k v = o ++ [(k, v)].
Proof.
  intros H. apply insert_new_append. intros a _. now apply precedes_plain.
Qed.

Lemma ordered_cons k ks :
  ordered (k :: ks) = true <->
  (forall a, In a ks -> precedes k a = true) /\ ~ In k ks /\
  ordered ks = true.
Proof.
  simpl. rewrite !andb_true_iff, forallb_forall, negb_true_iff.
  split.
  - intros [[H1 H2] H3]. repeat split; auto.
    intros HI. assert (existsb (String.eqb k) ks = true); [|congruence].
    apply existsb_exists. exists k. split; [exact HI|apply String.eqb_refl].
  - intros (H1 & H2 & H3). repeat split; auto.
    destruct (existsb (String.eqb k) ks) eqn:E; [|reflexivity].
    apply existsb_exists in E. destruct E as (x & HI & E).
    apply String.eqb_eq in E. subst x. tauto.
Qed.

Lemma ordered_insert_new o k v :
  wf o -> ~ In k (keys o) -> wf (insert_new o k v).
Proof.
  unfold wf. induction o as [|[k' w] t IH]; intros Hwf Hnot.
  - reflexivity.
  - cbn [insert_new]. change (keys ((k', w) :: t)) with (k' :: keys t) in *.
    apply ordered_cons in Hwf. destruct Hwf as (Hall & Hk' & Ht).
    destruct (precedes k' k) eqn:E.
    + change (ordered (k' :: keys (insert_new t k v)) = true).
      apply ordered_cons. repeat split.
      * intros a Ha. apply in_keys_insert_new in Ha.
        destruct Ha as [->|Ha]; auto.
      * intros Ha. apply in_keys_insert_new in Ha.
        destruct Ha as [->|Ha]; [apply Hnot; now left | tauto].
      * apply IH; [exact Ht|]. intros Ha. apply Hnot. now right.
    + change (ordered (k :: k' :: keys t) = true).
      apply ordered_cons. repeat split.
      * intros a [<-|Ha]; [now apply precedes_total|].
        apply precedes_trans with k'; [now apply precedes_total | auto].
      * exact Hnot.
      * apply ordered_cons. auto.
Qed.

Lemma wf_update o k v : wf o -> wf (update o k v).
Proof. unfold wf. now rewrite keys_update. Qed.

Lemma wf_define o k v : wf o -> wf (define o k v).
Proof.
  intros H. unfold define. destruct (has_own o k) eqn:E.
  - now apply wf_update.
  - apply ordered_insert_new; [exact H | now apply has_own_false].
Qed.

Lemma wf_assign o k v : wf o -> wf (assign o k v).
Proof.
  intros H. unfold assign. destruct (has_own o k) eqn:E.
  - now apply wf_update.
  - destruct (String.eqb k "__proto__"); [exact H|].
    apply ordered_insert_new; [exact H | now apply has_own_false].
Qed.

Lemma ordered_app_last (l : list string) k r :
  ordered (l ++ k :: r) = true ->
  (forall a, In a l -> precedes a k = true) /\ ~ In k l.
Proof.
  induction l as [|a l IH]; simpl app; intros H.
  - split; [intros a []|intros []].
  - apply ordered_cons in H. destruct H as (Hall & Hnot & Hl).
    destruct (IH Hl) as [H1 H2]. split.
    + intros b [<-|Hb]; [|auto]. apply Hall. apply in_or_app. right. now left.
    + intros [->|Hk]; [|tauto]. apply Hnot. apply in_or_app. right. now left.
Qed.

Lemma spread_from (l acc : obj V) :
  wf (acc ++ l) ->
  fold_left (fun a kv => define a (fst kv) (snd kv)) l acc = acc ++ l.
Proof.
  revert acc. induction l as [|[k v] l IH]; intros acc H; simpl.
  - now rewrite app_nil_r.
  - assert (Hd : define acc k v = acc ++ [(k, v)]).
    { unfold wf, keys in H. rewrite map_app in H. simpl in H.
      apply ordered_app_last in H. destruct H as [H1 H2].
      unfold define.
      assert (E : has_own acc k = false) by now apply has_own_false.
      rewrite E. now apply insert_new_append. }
    rewrite Hd, IH; rewrite <- app_assoc; [reflexivity | exact H].
Qed.

(** Copying an object in own-key order reproduces it. *)
Lemma spread_wf o : wf o -> spread o = o.
Proof. intros H. unfold spread. now rewrite spread_from. Qed.

Lemma get_own_assign_other o k k' v :
  k' <> k -> get_own (assign o k v) k' = get_own o k'.
Proof.
  intros Hne. unfold assign. destruct (has_own o k).
  - now apply get_own_update_other.
  - destruct (String.eqb k "__proto__"); [reflexivity|].
    now apply get_own_insert_new_other.
Qed.

Lemma get_own_assign_same o k v :
  k <> "__proto__" -> get_own (assign o k v) k = Some v.
Proof.
  intros Hne. unfold assign. destruct (has_own o k) eqn:E.
  - now apply get_own_update_same.
  - apply String.eqb_neq in Hne. rewrite Hne.
    apply get_own_insert_new_same. unfold has_own in E.
    now destruct (get_own o k).
Qed.

Lemma in_keys_assign o k v x :
  In x (keys (assign o k v)) <->
  In x (keys o) \/ (x = k /\ k <> "__proto__").
Proof.
  unfold assign. destruct (has_own o k) eqn:E.
  - rewrite keys_update. apply has_own_true in E. split; [tauto|].
    intros [H|[-> _]]; assumption.
  - destruct (String.eqb_spec k "__proto__") as [->|Hne].
    + tauto.
    + rewrite in_keys_insert_new. split; [|tauto].
      intros [->|H]; [right; now split | now left].
Qed.

End ObjFacts.

Lemma wf_empty {V : Type} : wf (@empty V).
Proof. reflexivity. Qed.

End JsFacts.

(* ================================================================== *)
(** ** The activity label *)

Module CardFacts.

Import Js Card.

Lemma pop_nil {A : Type} : pop (@nil A) = (None, []).
Proof. reflexivity. Qed.

Lemma pop_last {A : Type} (l : list A) (x : A) : pop (l ++ [x]) = (Some x, l).
Proof. unfold pop. now rewrite rev_unit, rev_involutive. Qed.

Lemma pop_removelast {A : Type} (a : list A) : snd (pop a) = removelast a.
Proof.
  destruct a as [|y a'] using rev_ind; [reflexivity|].
  now rewrite pop_last, removelast_last.
Qed.

Lemma samples_set_metrics card rest :
  samples (Project.set_metrics card
             (Some {| Project.github_pushed_at := Some rest |})) = rest.
Proof. reflexivity. Qed.

(** What one rendering does to a card that still has a sample. *)
Lemma Card_last now card l s :
  samples card = l ++ [s] ->
  Card now card = (getActivityIndicator now (Some (Project.value s)),
                   Project.set_metrics card
                     (Some {| Project.github_pushed_at := Some l |})).
Proof.
  unfold samples, Card.Card, pop_github_pushed_at.
  destruct (Project.metrics card) as [m|];
    [|intros H; now destruct l].
  destruct (Project.github_pushed_at m) as [a|];
    [|intros H; now destruct l].
  intros ->. now rewrite pop_last.
Qed.

Lemma Card_samples now card :
  samples (snd (Card.Card now card)) = removelast (samples card).
Proof.
  destruct (samples card) as [|y a'] eqn:E using rev_ind.
  - unfold samples, Card.Card, pop_github_pushed_at in *.
    destruct (Project.metrics card) as [m|] eqn:Em; simpl; [|now rewrite Em].
    destruct (Project.github_pushed_at m) as [a|] eqn:Ea; simpl.
    + subst a. reflexivity.
    + now rewrite Em, Ea.
  - rewrite (Card_last now card a' y E). simpl.
    now rewrite removelast_last.
Qed.

Lemma render_samples now n card :
  length (samples (snd (render now n card))) = length (samples card) - n.
Proof.
  revert card. induction n as [|n IH]; intros card; simpl.
  - lia.
  - pose proof (Card_samples now card) as Hc.
    destruct (Card.Card now card) as [l card1]. simpl in Hc.
    specialize (IH card1).
    destruct (render now n card1) as [ls card2]. simpl in *.
    rewrite IH, Hc.
    destruct (samples card) as [|y a'] using rev_ind; [reflexivity|].
    rewrite removelast_last, length_app. simpl. lia.
Qed.

Lemma labels_distinct (i j : Indicator) :
  ACTIVITY_INDICATORS i = ACTIVITY_INDICATORS j -> i = j.
Proof. destruct i, j; simpl; intros H; try reflexivity; discriminate H. Qed.

Lemma getActivityIndicator_valid now t :
  t <> 0%Z -> (Z.abs (t * 1000) <= MAX_TIME)%Z ->
  getActivityIndicator now (Some t) =
    let d := diffDays now (t * 1000) in
    if (d <=? 90)%Z then ACTIVITY_INDICATORS active
    else if (d <=? 180)%Z then ACTIVITY_INDICATORS moderate
    else ACTIVITY_INDICATORS inactive.
Proof.
  intros Ht Hr. unfold getActivityIndicator, Date_getTime.
  destruct t as [|p|p]; [congruence| |]; cbv beta iota;
    (match goal with
     | |- context [Z.leb ?a ?b] => destruct (Z.leb_spec a b)
     end; [reflexivity|lia]).
Qed.

(** C3, as the code has it.  For a last-pushed timestamp [t] (epoch seconds)
    other than 0 whose instant a [Date] can hold, and an evaluation instant
    [now] (milliseconds), the classifier takes the whole days elapsed by
    floor division and answers [active] iff days <= 90, [moderate] iff
    90 < days <= 180, [inactive] iff days > 180.  A missing timestamp, the
    timestamp 0 and a timestamp outside the range of [Date] give [default]
    (unknown).  The function is total: it never throws. *)
Theorem getActivityIndicator_buckets (now t : Z) :
  (t <> 0%Z -> (Z.abs (t * 1000) <= MAX_TIME)%Z ->
   let days := diffDays now (t * 1000) in
   (MS_PER_DAY * days <= now - t * 1000 < MS_PER_DAY * (days + 1))%Z /\
   (getActivityIndicator now (Some t) = ACTIVITY_INDICATORS active
      <-> (days <= 90)%Z) /\
   (getActivityIndicator now (Some t) = ACTIVITY_INDICATORS moderate
      <-> (90 < days <= 180)%Z) /\
   (getActivityIndicator now (Some t) = ACTIVITY_INDICATORS inactive
      <-> (180 < days)%Z)) /\
  (t = 0%Z \/ (MAX_TIME < Z.abs (t * 1000))%Z ->
   getActivityIndicator now (Some t) = ACTIVITY_INDICATORS default) /\
  getActivityIndicator now None = ACTIVITY_INDICATORS default.
Proof.
  split; [|split].
  - intros Ht Hr days. rewrite (getActivityIndicator_valid now t Ht Hr).
    fold days. split.
    + unfold days, diffDays.
      assert (Hpos : (0 < MS_PER_DAY)%Z) by reflexivity.
      pose proof (Z.mul_div_le (now - t * 1000) MS_PER_DAY Hpos).
      pose proof (Z.mul_succ_div_gt (now - t * 1000) MS_PER_DAY Hpos).
      lia.
    + cbv zeta.
      destruct (Z.leb_spec days 90) as [L1|L1],
        (Z.leb_spec days 180) as [L2|L2];
        (split; [|split]); (split; intros Hx);
        try reflexivity; try lia;
        try (apply labels_distinct in Hx; discriminate Hx).
  - intros [->|Hout]; [reflexivity|].
    unfold getActivityIndicator, Date_getTime.
    destruct t as [|p|p]; [reflexivity| |]; cbv beta iota;
      (match goal with
       | |- context [Z.leb ?a ?b] => destruct (Z.leb_spec a b)
       end; [lia|reflexivity]).
  - reflexivity.
Qed.

(** The boundary cases: one second past the epoch, read 90, 91, 180 and 181
    days later. *)
Lemma getActivityIndicator_buckets_witness :
  getActivityIndicator (1000 + 90 * MS_PER_DAY) (Some 1%Z)
    = ACTIVITY_INDICATORS active /\
  getActivityIndicator (1000 + 91 * MS_PER_DAY) (Some 1%Z)
    = ACTIVITY_INDICATORS moderate /\
  getActivityIndicator (1000 + 180 * MS_PER_DAY) (Some 1%Z)
    = ACTIVITY_INDICATORS moderate /\
  getActivityIndicator (1000 + 181 * MS_PER_DAY) (Some 1%Z)
    = ACTIVITY_INDICATORS inactive.
Proof.
  assert (H1 : 1%Z <> 0%Z) by discriminate.
  assert (H2 : (Z.abs (1 * 1000) <= MAX_TIME)%Z) by (vm_compute; discriminate).
  split; [|split; [|split]].
  - apply (proj1 (getActivityIndicator_buckets (1000 + 90 * MS_PER_DAY) 1) H1 H2).
    vm_compute; discriminate.
  - apply (proj1 (getActivityIndicator_buckets (1000 + 91 * MS_PER_DAY) 1) H1 H2).
    vm_compute; split; [reflexivity | discriminate].
  - apply (proj1 (getActivityIndicator_buckets (1000 + 180 * MS_PER_DAY) 1) H1 H2).
    vm_compute; split; [reflexivity | discriminate].
  - apply (proj1 (getActivityIndicator_buckets (1000 + 181 * MS_PER_DAY) 1) H1 H2).
    vm_compute; reflexivity.
Defined.

(** C3 as the specification words it fails at the timestamp 0: on
    14 November 2023 the epoch lies 19675 whole days back, which the claim
    classifies as [inactive]; the code answers [default]. *)
Lemma getActivityIndicator_zero_not_inactive :
  (180 < diffDays 1700000000000 (0 * 1000))%Z /\
  Date_getTime (0 * 1000) = Some 0%Z /\
  getActivityIndicator 1700000000000 (Some 0%Z)
    <> ACTIVITY_INDICATORS inactive.
Proof.
  split; [reflexivity|]. split; [reflexivity|].
  vm_compute. discriminate.
Qed.

(** C9.  Rendering a card is not observation-only: the value handed to the
    classifier is taken with [pop], so the card leaves the rendering with
    its [github_pushed_at] sequence cut by its last sample, [n] renderings
    remove [n] samples, and the label of a rendering is computed from the
    sample that rendering removed. *)
Theorem Card_removes_last_sample (now : Z) (card : Project.ProjectInfo) :
  samples (snd (Card.Card now card)) = removelast (samples card) /\
  (forall n, length (samples (snd (render now n card)))
             = length (samples card) - n) /\
  (samples card <> [] ->
   length (samples (snd (Card.Card now card))) < length (samples card) /\
   exists s,
     samples card = samples (snd (Card.Card now card)) ++ [s] /\
     fst (Card.Card now card)
       = getActivityIndicator now (Some (Project.value s))).
Proof.
  split; [apply Card_samples|]. split; [intros n; apply render_samples|].
  intros Hne.
  destruct (exists_last Hne) as (l & s & E).
  rewrite (Card_last now card l s E).
  cbn [fst snd]. rewrite samples_set_metrics. split.
  - rewrite E, length_app. simpl. lia.
  - exists s. now split.
Qed.

End CardFacts.

(* ================================================================== *)
(** ** Facts shared by the two containers *)

Module CommonFacts.

Import Js Common JsFacts Reference.

Lemma find_eq_truthy (a : option (list string)) (c : string) :
  truthy_string (find_eq a c) = true <->
  c <> "" /\ exists l, a = Some l /\ In c l.
Proof.
  destruct a as [l|]; simpl.
  - destruct (find (fun d => String.eqb d c) l) as [d|] eqn:E.
    + apply find_some in E. destruct E as [HI E].
      apply String.eqb_eq in E. subst d.
      destruct c; simpl.
      * split; [discriminate | intros [H _]; congruence].
      * split; [|reflexivity]. intros _. split; [discriminate|]. now exists l.
    + simpl. split; [discriminate|].
      intros (_ & l' & [= <-] & HI).
      apply (find_none _ _ E) in HI. now rewrite String.eqb_refl in HI.
  - split; [discriminate|]. now intros (_ & l & H & _).
Qed.

Lemma every_found_spec (sel : list string) (a : option (list string)) :
  every_found sel a = true <->
  forall c, In c sel -> c <> "" /\ exists l, a = Some l /\ In c l.
Proof.
  unfold every_found. rewrite forallb_forall.
  split; intros H c Hc; apply find_eq_truthy; auto.
Qed.

Lemma every_found_incl (sel sel' : list string) (a : option (list string)) :
  incl sel sel' -> every_found sel' a = true -> every_found sel a = true.
Proof.
  rewrite !every_found_spec. intros Hi H c Hc. apply H. now apply Hi.
Qed.

Lemma in_selected (o : obj bool) (k : string) :
  In k (selected o) <-> In k (keys o) /\ truthy_get o k = true.
Proof. unfold selected. apply filter_In. Qed.

(** The object written by a toggle, when the key is an own one. *)
Lemma flip_present (o : obj bool) (k : string) (b : bool) :
  wf o -> get_own o k = Some b ->
  define (spread o) k (negb (truthy_get o k)) = update o k (negb b).
Proof.
  intros Hwf E. rewrite (spread_wf o Hwf).
  unfold define, truthy_get, has_own. now rewrite E.
Qed.

(** The object written by a toggle, when the key is not an own one. *)
Lemma flip_absent (o : obj bool) (k : string) :
  wf o -> has_own o k = false ->
  define (spread o) k (negb (truthy_get o k))
    = insert_new o k (negb (inherited k)).
Proof.
  intros Hwf E. rewrite (spread_wf o Hwf).
  unfold define, truthy_get. rewrite E.
  unfold has_own in E. now destruct (get_own o k).
Qed.

Lemma flip_twice (o : obj bool) (k : string) :
  wf o -> has_own o k = true ->
  let o' := define (spread o) k (negb (truthy_get o k)) in
  define (spread o') k (negb (truthy_get o' k)) = o.
Proof.
  intros Hwf Hk. cbv zeta.
  destruct (get_own o k) as [b|] eqn:E;
    [|unfold has_own in Hk; now rewrite E in Hk].
  rewrite (flip_present o k b Hwf E).
  assert (E' : get_own (update o k (negb b)) k = Some (negb b))
    by now apply get_own_update_same.
  rewrite (flip_present _ k (negb b) (wf_update o k _ Hwf) E').
  rewrite update_update, negb_involutive. now apply update_same.
Qed.

Lemma wf_flip (o : obj bool) (k : string) :
  wf o -> wf (define (spread o) k (negb (truthy_get o k))).
Proof. intros H. rewrite (spread_wf o H). now apply wf_define. Qed.

(** Selecting a value that was not selected keeps every earlier selection. *)
Lemma selected_flip_incl (o : obj bool) (k : string) :
  wf o -> truthy_get o k = false ->
  incl (selected o) (selected (define (spread o) k (negb (truthy_get o k)))).
Proof.
  intros Hwf Hk c Hc. rewrite (spread_wf o Hwf).
  apply in_selected in Hc. destruct Hc as [Hin Ht].
  assert (Hne : c <> k) by (intros ->; congruence).
  apply in_selected. unfold define, truthy_get in *.
  destruct (has_own o k) eqn:E.
  - rewrite keys_update, get_own_update_other by exact Hne. now split.
  - rewrite in_keys_insert_new, get_own_insert_new_other by exact Hne.
    split; [now right | exact Ht].
Qed.

Lemma wf_mark (o : obj bool) (a : option (list string)) :
  wf o -> wf (mark o a).
Proof.
  destruct a as [ls|]; simpl; [|auto].
  revert o. induction ls as [|l ls IH]; intros o H; simpl; [exact H|].
  apply IH. destruct (nonempty l); [now apply wf_assign | exact H].
Qed.

Lemma wf_mark_allowed (o : obj bool) (a : option (list string)) :
  wf o -> wf (mark_allowed o a).
Proof.
  destruct a as [ls|]; simpl; [|auto].
  revert o. induction ls as [|l ls IH]; intros o H; simpl; [exact H|].
  apply IH. destruct (nonempty l); [|exact H].
  destruct (allowed l); [now apply wf_assign | exact H].
Qed.

Lemma allowed_enterable (l : string) : allowed l = true -> enterable l = true.
Proof.
  unfold allowed. intros H. apply existsb_exists in H.
  destruct H as (x & Hx & E). apply String.eqb_eq in E. subst x.
  simpl in Hx. repeat destruct Hx as [<-|Hx]; try reflexivity. destruct Hx.
Qed.

Lemma enterable_spec (l : string) :
  enterable l = true <-> l <> "" /\ l <> "__proto__".
Proof.
  unfold enterable. rewrite andb_true_iff, negb_true_iff, String.eqb_neq.
  destruct l; simpl; split; intros [H1 H2]; split;
    congruence || discriminate || reflexivity.
Qed.

(** The keys of a filter map after one of the loops of the load effect. *)
Lemma in_keys_mark (o : obj bool) (a : option (list string)) (x : string) :
  In x (keys (mark o a)) <->
  In x (keys o) \/ (enterable x = true /\ exists ls, a = Some ls /\ In x ls).
Proof.
  destruct a as [ls|]; simpl.
  2:{ split; [tauto|]. intros [H|(_ & ls & H & _)]; [exact H|discriminate]. }
  revert o. induction ls as [|l ls IH]; intros o; simpl.
  - split; [tauto|]. intros [H|(_ & ls & [= <-] & [])]. exact H.
  - rewrite IH. clear IH. split.
    + intros [H|(He & ls' & [= <-] & HI)].
      * destruct (nonempty l) eqn:En; [|now left].
        apply in_keys_assign in H. destruct H as [H|[E Hp]]; [now left|].
        subst l.
        right. split; [|exists (x :: ls); split; [reflexivity|now left]].
        apply enterable_spec. split; [now destruct x|exact Hp].
      * right. split; [exact He|]. exists (l :: ls). split; [reflexivity|].
        now right.
    + intros [H|(He & ls' & [= <-] & [->|HI])].
      * left. destruct (nonempty l); [|exact H].
        apply in_keys_assign. now left.
      * left. apply enterable_spec in He. destruct He as [H1 H2].
        destruct x; [congruence|]. simpl.
        apply in_keys_assign. right. now split.
      * right. split; [exact He|]. now exists ls.
Qed.

Lemma in_keys_mark_allowed (o : obj bool) (a : option (list string))
  (x : string) :
  In x (keys (mark_allowed o a)) <->
  In x (keys o) \/ (allowed x = true /\ exists ls, a = Some ls /\ In x ls).
Proof.
  destruct a as [ls|]; simpl.
  2:{ split; [tauto|]. intros [H|(_ & ls & H & _)]; [exact H|discriminate]. }
  revert o. induction ls as [|l ls IH]; intros o; simpl.
  - split; [tauto|]. intros [H|(_ & ls & [= <-] & [])]. exact H.
  - rewrite IH. clear IH. split.
    + intros [H|(He & ls' & [= <-] & HI)].
      * destruct (nonempty l) eqn:En; [|now left].
        destruct (allowed l) eqn:Ea; [|now left].
        apply in_keys_assign in H. destruct H as [H|[E Hp]]; [now left|].
        subst l.
        right. split; [exact Ea|].
        exists (x :: ls). split; [reflexivity|now left].
      * right. split; [exact He|]. exists (l :: ls). split; [reflexivity|].
        now right.
    + intros [H|(He & ls' & [= <-] & [->|HI])].
      * left. destruct (nonempty l); [|exact H].
        destruct (allowed l); [|exact H].
        apply in_keys_assign. now left.
      * left. rewrite He.
        pose proof (allowed_enterable x He) as Hent.
        apply enterable_spec in Hent. destruct Hent as [H1 H2].
        destruct x; [congruence|]. simpl.
        apply in_keys_assign. right. now split.
      * right. split; [exact He|]. now exists ls.
Qed.

End CommonFacts.

(* ================================================================== *)
(** ** The container keyed on the layer: filter state and query *)

Module EcosystemMapFacts.

Import Js Common JsFacts CommonFacts Reference EcosystemMap.

Lemma field_with_field (f : IFilters) (type : TCategory) (o : obj bool) :
  field (with_field f type o) type = o.
Proof. now destruct type. Qed.

Lemma field_with_field_other (f : IFilters) (type t : TCategory)
  (o : obj bool) :
  t <> type -> field (with_field f type o) t = field f t.
Proof. destruct type, t; simpl; congruence. Qed.

Lemma with_field_twice (f : IFilters) (type : TCategory) (o o' : obj bool) :
  with_field (with_field f type o) type o' = with_field f type o'.
Proof. now destruct type. Qed.

Lemma with_field_same (f : IFilters) (type : TCategory) :
  with_field f type (field f type) = f.
Proof. now destruct f, type. Qed.

Lemma passes_split (f : IFilters) (p : Project.ProjectInfo) :
  passes f p =
    passes_dimension f Kcategory p && passes_dimension f Klayer p &&
    passes_dimension f Ktarget_audience p && passes_dimension f Kecosystem p.
Proof. reflexivity. Qed.

(** The filter maps stay in own-key order. *)
Lemma wf_facets (d : list Project.ProjectInfo) (t : TCategory) :
  wf (field (facets d) t).
Proof.
  unfold facets.
  assert (H : forall f, (forall t, wf (field f t)) ->
                        forall t, wf (field (fold_left collect d f) t)).
  { induction d as [|c d IH]; intros f Hf; simpl; [exact Hf|].
    apply IH. intros t'. pose proof (Hf Klayer). pose proof (Hf Kcategory).
    pose proof (Hf Ktarget_audience). pose proof (Hf Kecosystem).
    destruct t'; simpl in *; auto using wf_mark, wf_mark_allowed. }
  apply H. intros t'. destruct t'; apply wf_empty.
Qed.

Lemma wf_toggleFilterByCategory (f : IFilters) (type : TCategory)
  (v : string) :
  (forall t, wf (field f t)) ->
  forall t, wf (field (toggleFilterByCategory f type v) t).
Proof.
  intros Hf t. pose proof (wf_flip (field f type) v (Hf type)) as Hn.
  pose proof (Hf t) as Ht.
  unfold toggleFilterByCategory. destruct type, t; simpl in *; assumption.
Qed.

Lemma passes_dimension_narrows (f : IFilters) (type : TCategory) (v : string)
  (t : TCategory) (p : Project.ProjectInfo) :
  wf (field f type) -> truthy_get (field f type) v = false ->
  passes_dimension (toggleFilterByCategory f type v) t p = true ->
  passes_dimension f t p = true.
Proof.
  intros Hwf Hv. pose proof (selected_flip_incl _ v Hwf Hv) as Hi.
  unfold passes_dimension, toggleFilterByCategory.
  destruct type, t; simpl in *; intros H; try exact H;
    (eapply every_found_incl; [exact Hi | exact H]).
Qed.

(** C1, as the code has it.  For every record and every dimension, the
    record passes the dimension's constraint iff every selected value of the
    dimension is a non-empty member of the record's value set for it: the
    selected values are joined by AND, so selecting a further value of a
    dimension can only narrow the set of records that pass.  A dimension
    with no selected value imposes no constraint, and the filter predicate
    is the conjunction of the four constraints. *)
Theorem passes_every_selected_value (f : IFilters) (type : TCategory)
  (p : Project.ProjectInfo) :
  (passes_dimension f type p = true <->
   forall c, In c (selected (field f type)) ->
             c <> "" /\ exists l, values p type = Some l /\ In c l) /\
  (selected (field f type) = [] -> passes_dimension f type p = true) /\
  passes f p =
    (passes_dimension f Kcategory p && passes_dimension f Klayer p &&
     passes_dimension f Ktarget_audience p &&
     passes_dimension f Kecosystem p) /\
  (forall v, wf (field f type) -> truthy_get (field f type) v = false ->
             passes (toggleFilterByCategory f type v) p = true ->
             passes f p = true).
Proof.
  split; [apply every_found_spec|]. split.
  - unfold passes_dimension. now intros ->.
  - split; [reflexivity|]. intros v Hwf Hv.
    rewrite !passes_split, !andb_true_iff.
    intros [[[H1 H2] H3] H4];
      repeat split; eapply passes_dimension_narrows; eassumption.
Qed.

(** Acala passes the filter in which DeFi is selected; the theorem derives
    it from Acala passing the narrower filter in which Polkadot is selected
    as well. *)
Lemma passes_every_selected_value_witness :
  let f := toggleFilterByCategory (facets [Sample.acala; Sample.moonbeam])
             Kcategory "DeFi" in
  passes f Sample.acala = true.
Proof.
  intros f.
  apply (proj2 (proj2 (proj2
           (passes_every_selected_value f Kecosystem Sample.acala)))
           "Polkadot"); reflexivity.
Defined.

(** C1 as the specification words it: Acala carries DeFi, DeFi and EVM are
    both selected, the two sets intersect, and yet Acala does not pass the
    category constraint; the second selection emptied the result instead of
    widening it. *)
Lemma second_selected_value_narrows :
  let s0 := load Sample.palette initial [Sample.acala; Sample.moonbeam] in
  let s1 := toggle s0 Kcategory "DeFi" in
  let s2 := toggle s1 Kcategory "EVM" in
  map Project.name (data s1) = ["Acala"] /\
  map Project.name (data s2) = [] /\
  (exists v, In v (selected (category (filters s2))) /\
             In v ["DeFi"] /\
             Project.category Sample.acala = Some ["DeFi"]) /\
  passes_dimension (filters s2) Kcategory Sample.acala = false.
Proof.
  cbv zeta. split; [reflexivity|]. split; [reflexivity|]. split.
  - exists "DeFi". split; [|split; [now left | reflexivity]].
    vm_compute. tauto.
  - reflexivity.
Qed.

(** C2, as the code has it.  A toggle on a string that is not a key of the
    dimension's map never throws but is not a no-op: it adds the string as a
    new key of that map, selected (its flag is [true]; [false] when the
    string names a member inherited from [Object.prototype]).  The flags of
    the other keys and the maps of the other dimensions are unchanged. *)
Theorem toggle_unknown_value (f : IFilters) (type : TCategory) (v : string) :
  wf (field f type) -> has_own (field f type) v = false ->
  let f' := toggleFilterByCategory f type v in
  f' <> f /\
  get_own (field f' type) v = Some (negb (inherited v)) /\
  (forall k, In k (keys (field f' type)) <->
             k = v \/ In k (keys (field f type))) /\
  (forall k, k <> v -> get_own (field f' type) k = get_own (field f type) k) /\
  (forall t, t <> type -> field f' t = field f t).
Proof.
  intros Hwf Hv f'.
  assert (E : field f' type = insert_new (field f type) v (negb (inherited v))).
  { unfold f', toggleFilterByCategory.
    now rewrite field_with_field, flip_absent. }
  assert (Hnone : get_own (field f type) v = None).
  { unfold has_own in Hv. now destruct (get_own (field f type) v). }
  split; [|split; [|split; [|split]]].
  - intros Heq. apply has_own_false in Hv. apply Hv.
    rewrite <- Heq, E. apply in_keys_insert_new. now left.
  - rewrite E. now apply get_own_insert_new_same.
  - intros k. rewrite E. apply in_keys_insert_new.
  - intros k Hk. rewrite E. now apply get_own_insert_new_other.
  - intros t Ht. unfold f', toggleFilterByCategory.
    now apply field_with_field_other.
Qed.

Lemma toggle_unknown_value_witness :
  get_own
    (ecosystem
       (toggleFilterByCategory (facets [Sample.acala; Sample.moonbeam])
          Kecosystem "Ethereum"))
    "Ethereum" = Some true.
Proof.
  apply (toggle_unknown_value (facets [Sample.acala; Sample.moonbeam])
           Kecosystem "Ethereum"); reflexivity.
Defined.

(** C2 as the specification words it: Ethereum is carried by Moonbeam but is
    not a key of the ecosystem map; toggling it changes the filter state and
    the visible records. *)
Lemma toggle_unknown_value_changes_state :
  let s0 := load Sample.palette initial [Sample.acala; Sample.moonbeam] in
  let s1 := toggle s0 Kecosystem "Ethereum" in
  has_own (ecosystem (filters s0)) "Ethereum" = false /\
  keys (ecosystem (filters s0)) = ["Polkadot"; "Acala Network"; "Moonbeam"] /\
  keys (ecosystem (filters s1))
    = ["Polkadot"; "Acala Network"; "Moonbeam"; "Ethereum"] /\
  filters s1 <> filters s0 /\
  map Project.name (data s0) = ["Acala"; "Moonbeam"] /\
  map Project.name (data s1) = ["Moonbeam"].
Proof.
  cbv zeta. repeat (split; [reflexivity|]).
  split; [|split; reflexivity].
  vm_compute. discriminate.
Qed.

(** C8.  For every dimension and every value that is a key of the
    dimension's map, two toggles in succession restore the filter state,
    flag for flag and key for key, and with it the visible records. *)
Theorem toggle_twice (f : IFilters) (type : TCategory) (v : string) :
  wf (field f type) -> has_own (field f type) v = true ->
  toggleFilterByCategory (toggleFilterByCategory f type v) type v = f /\
  forall s, filters s = f ->
    toggle (toggle (filterProjects s) type v) type v = filterProjects s.
Proof.
  intros Hwf Hv.
  assert (E : toggleFilterByCategory (toggleFilterByCategory f type v) type v
              = f).
  { unfold toggleFilterByCategory.
    rewrite field_with_field, with_field_twice.
    rewrite (flip_twice (field f type) v Hwf Hv).
    apply with_field_same. }
  split; [exact E|].
  intros s <-. unfold toggle, filterProjects. cbn [filters ecosystemProjects
    data colorMap]. now rewrite E.
Qed.

Lemma toggle_twice_witness :
  let f := facets [Sample.acala; Sample.moonbeam] in
  toggleFilterByCategory (toggleFilterByCategory f Kcategory "DeFi")
    Kcategory "DeFi" = f.
Proof.
  intros f. apply (toggle_twice f Kcategory "DeFi"); reflexivity.
Defined.

End EcosystemMapFacts.

(* ================================================================== *)
(** ** Key order and colours *)

Module ColourFacts.

Import Js Common JsFacts CommonFacts Reference.

Lemma has_own_existsb {V : Type} (o : obj V) (k : string) :
  has_own o k = existsb (String.eqb k) (keys o).
Proof.
  destruct (has_own o k) eqn:E; symmetry.
  - apply has_own_true in E. apply existsb_exists. exists k.
    split; [exact E | apply String.eqb_refl].
  - apply has_own_false in E.
    destruct (existsb (String.eqb k) (keys o)) eqn:X; [|reflexivity].
    apply existsb_exists in X. destruct X as (x & Hx & Ex).
    apply String.eqb_eq in Ex. subst x. tauto.
Qed.

(** A key that is not an array index is created behind all the others. *)
Lemma keys_assign_plain {V : Type} (o : obj V) (k : string) (v : V) :
  array_index k = None ->
  keys (assign o k v) =
    if negb (String.eqb k "__proto__") && negb (existsb (String.eqb k) (keys o))
    then keys o ++ [k] else keys o.
Proof.
  intros Hk. unfold assign. rewrite <- has_own_existsb.
  destruct (has_own o k).
  - rewrite keys_update, andb_false_r. reflexivity.
  - destruct (String.eqb k "__proto__"); simpl; [reflexivity|].
    rewrite insert_new_plain by exact Hk. unfold keys.
    now rewrite map_app.
Qed.

Lemma keys_fold_assign (keep' keep : string -> bool) :
  (forall l, keep l = keep' l && negb (String.eqb l "__proto__")) ->
  forall (ls : list string) (o : obj bool),
    (forall l, In l ls -> array_index l = None) ->
    keys (fold_left (fun o l => if keep' l then assign o l false else o) ls o)
    = fold_left
        (fun acc l =>
           if keep l && negb (existsb (String.eqb l) acc) then acc ++ [l]
           else acc)
        ls (keys o).
Proof.
  intros Hkeep ls. induction ls as [|l ls IH]; intros o Hplain; simpl.
  - reflexivity.
  - rewrite IH by (intros x Hx; apply Hplain; now right). f_equal.
    rewrite Hkeep. destruct (keep' l); simpl; [|reflexivity].
    apply keys_assign_plain. apply Hplain. now left.
Qed.

Lemma fold_left_ext {A B : Type} (g h : A -> B -> A) (l : list B) (a : A) :
  (forall x y, g x y = h x y) -> fold_left g l a = fold_left h l a.
Proof.
  intros E. revert a. induction l as [|y l IH]; intros a; simpl;
    [reflexivity | now rewrite E, IH].
Qed.

(** The loops over the records amount to one loop over the carried values. *)
Lemma fold_mark (get : Project.ProjectInfo -> option (list string))
  (d : list Project.ProjectInfo) (o : obj bool) :
  fold_left (fun o c => mark o (get c)) d o = mark o (Some (carried get d)).
Proof.
  revert o. induction d as [|c d IH]; intros o; simpl; [reflexivity|].
  rewrite IH. simpl. rewrite fold_left_app.
  now destruct (get c).
Qed.

Lemma fold_mark_allowed (get : Project.ProjectInfo -> option (list string))
  (d : list Project.ProjectInfo) (o : obj bool) :
  fold_left (fun o c => mark_allowed o (get c)) d o
  = mark_allowed o (Some (carried get d)).
Proof.
  revert o. induction d as [|c d IH]; intros o; simpl; [reflexivity|].
  rewrite IH. simpl. rewrite fold_left_app.
  now destruct (get c).
Qed.

Lemma keys_mark_first_seen (ls : list string) :
  (forall l, In l ls -> array_index l = None) ->
  keys (mark empty (Some ls)) = first_seen enterable ls.
Proof.
  intros H. unfold mark, first_seen.
  now rewrite (keys_fold_assign nonempty enterable).
Qed.

Lemma keys_mark_allowed_first_seen (ls : list string) :
  (forall l, In l ls -> array_index l = None) ->
  keys (mark_allowed empty (Some ls)) = first_seen allowed ls.
Proof.
  intros H. unfold mark_allowed, first_seen.
  rewrite (fold_left_ext _
             (fun o l =>
                if nonempty l && allowed l then assign o l false else o)).
  - rewrite (keys_fold_assign (fun l => nonempty l && allowed l) allowed);
      [reflexivity| |exact H].
    intros l. destruct (allowed l) eqn:E.
    + apply allowed_enterable in E. unfold enterable in E.
      apply andb_true_iff in E. destruct E as [-> ->]. reflexivity.
    + now rewrite andb_false_r.
  - intros o l. now destruct (nonempty l), (allowed l).
Qed.

Lemma get_own_paint_skip (colors : list (list N)) (ks : list string)
  (idx : nat) (c : obj string) (k : string) :
  ~ In k ks -> get_own (paint colors ks idx c) k = get_own c k.
Proof.
  revert idx c. induction ks as [|k0 ks IH]; intros idx c Hk; simpl.
  - reflexivity.
  - rewrite IH by (intros H; apply Hk; now right).
    apply get_own_assign_other. intros ->. apply Hk. now left.
Qed.

(** The colour of a key is the colour handed out at its last position. *)
Lemma get_own_paint (colors : list (list N)) (ks : list string) (idx : nat)
  (c : obj string) (i : nat) (k : string) :
  nth_error ks i = Some k ->
  (forall j, i < j -> nth_error ks j <> Some k) ->
  k <> "__proto__" ->
  get_own (paint colors ks idx c) k = Some (color_at colors (idx + i)).
Proof.
  revert idx c i. induction ks as [|k0 ks IH]; intros idx c i Hi Hlast Hp.
  - now destruct i.
  - destruct i as [|i]; simpl in Hi |- *.
    + injection Hi as ->.
      rewrite get_own_paint_skip.
      * rewrite Nat.add_0_r. now apply get_own_assign_same.
      * intros HI. apply In_nth_error in HI. destruct HI as [j Hj].
        apply (Hlast (S j)); [lia | exact Hj].
    + rewrite (IH (S idx) _ i Hi); [f_equal; f_equal; lia | | exact Hp].
      intros j Hj. apply (Hlast (S j)). lia.
Qed.

Lemma color_at_entry (colors : list (list N)) (i : nat) :
  colors <> [] ->
  exists e, nth_error colors (i mod length colors) = Some e /\
            color_at colors i = join_numbers e.
Proof.
  intros Hne. unfold color_at.
  destruct colors as [|e0 colors']; [congruence|].
  set (cs := e0 :: colors'). change (length cs) with (S (length colors')).
  assert (Hlt : i mod S (length colors') < length cs).
  { apply Nat.mod_upper_bound. discriminate. }
  destruct (nth_error cs (i mod S (length colors'))) as [e|] eqn:E.
  - exists e. split; [reflexivity|]. cbn [length]. fold cs. now rewrite E.
  - apply nth_error_None in E. lia.
Qed.

End ColourFacts.

(* ================================================================== *)
(** ** Key order in the presence of array indices *)

Module KeyOrderFacts.

Import Js Common JsFacts CommonFacts Reference ColourFacts.

Lemma wf_NoDup {V : Type} (o : obj V) : wf o -> NoDup (keys o).
Proof.
  unfold wf. induction (keys o) as [|k ks IH]; intros H; [constructor|].
  apply ordered_cons in H. destruct H as (_ & Hk & Hks).
  constructor; auto.
Qed.

Lemma filter_none_index (ks : list string) :
  (forall a, In a ks -> is_index a = false) ->
  filter is_index ks = [] /\ filter plain ks = ks.
Proof.
  unfold plain. induction ks as [|k ks IH]; intros H; simpl; [now split|].
  rewrite (H k (or_introl eq_refl)). simpl.
  destruct IH as [E1 E2]; [intros a Ha; apply H; now right|].
  now rewrite E1, E2.
Qed.

(** A key list in own-key order is its array indices, in ascending numeric
    order, followed by its other keys. *)
Lemma ordered_split (ks : list string) :
  Js.ordered ks = true ->
  ks = filter is_index ks ++ filter plain ks /\
  StronglySorted index_le (filter is_index ks).
Proof.
  induction ks as [|k ks IH]; intros H; [split; [reflexivity | constructor]|].
  apply ordered_cons in H. destruct H as (Hall & _ & Hks).
  destruct (IH Hks) as [E S]. simpl. unfold plain at 1.
  destruct (is_index k) eqn:Ek; simpl.
  - split; [now rewrite <- E|]. constructor; [exact S|].
    apply Forall_forall. intros a Ha. apply filter_In in Ha.
    destruct Ha as [Ha Hi]. specialize (Hall a Ha).
    unfold is_index in Ek, Hi. unfold precedes in Hall. unfold index_le.
    destruct (array_index k) as [i|]; [|discriminate].
    destruct (array_index a) as [j|]; [|discriminate].
    exists i, j. repeat split. now apply N.leb_le.
  - destruct (filter_none_index ks) as [E1 E2].
    + intros a Ha. specialize (Hall a Ha).
      unfold is_index in *. unfold precedes in Hall.
      destruct (array_index k); [discriminate|].
      now destruct (array_index a).
    + rewrite E1, E2. split; [reflexivity | constructor].
Qed.

Lemma plain_keys_insert_index {V : Type} (o : obj V) (k : string) (v : V) :
  is_index k = true ->
  filter plain (keys (insert_new o k v)) = filter plain (keys o).
Proof.
  intros Hk. induction o as [|[k' w] o IH]; simpl.
  - unfold plain. now rewrite Hk.
  - destruct (precedes k' k); simpl.
    + now rewrite IH.
    + unfold plain at 1. now rewrite Hk.
Qed.

Lemma existsb_plain (l : list string) (k : string) :
  plain k = true ->
  existsb (String.eqb k) (filter plain l) = existsb (String.eqb k) l.
Proof.
  intros Hk. induction l as [|x l IH]; simpl; [reflexivity|].
  destruct (plain x) eqn:Ex; simpl.
  - now rewrite IH.
  - rewrite IH. destruct (String.eqb_spec k x) as [->|_]; [congruence|].
    reflexivity.
Qed.

Lemma plain_keys_assign {V : Type} (o : obj V) (k : string) (v : V) :
  filter plain (keys (assign o k v)) =
    if negb (String.eqb k "__proto__") && plain k
       && negb (existsb (String.eqb k) (filter plain (keys o)))
    then filter plain (keys o) ++ [k]
    else filter plain (keys o).
Proof.
  destruct (plain k) eqn:Hk.
  - rewrite existsb_plain by exact Hk. rewrite andb_true_r.
    assert (Hi : array_index k = None).
    { unfold plain, is_index in Hk. now destruct (array_index k). }
    rewrite (keys_assign_plain o k v Hi).
    destruct (negb (String.eqb k "__proto__")
              && negb (existsb (String.eqb k) (keys o))); [|reflexivity].
    rewrite filter_app. simpl. now rewrite Hk.
  - rewrite andb_false_r. simpl.
    unfold assign. destruct (has_own o k); [now rewrite keys_update|].
    destruct (String.eqb k "__proto__"); [reflexivity|].
    apply plain_keys_insert_index. unfold plain in Hk.
    now destruct (is_index k).
Qed.

Lemma plain_keys_fold_assign (keep' keep : string -> bool) :
  (forall l, keep l = keep' l && negb (String.eqb l "__proto__")) ->
  forall (ls : list string) (o : obj bool),
    filter plain
      (keys (fold_left (fun o l => if keep' l then assign o l false else o)
               ls o))
    = fold_left
        (fun acc l =>
           if (keep l && plain l) && negb (existsb (String.eqb l) acc)
           then acc ++ [l] else acc)
        ls (filter plain (keys o)).
Proof.
  intros Hkeep ls. induction ls as [|l ls IH]; intros o; simpl.
  - reflexivity.
  - rewrite IH. f_equal. rewrite Hkeep.
    destruct (keep' l); simpl; [|reflexivity].
    apply plain_keys_assign.
Qed.

Lemma plain_keys_mark (ls : list string) :
  filter plain (keys (mark empty (Some ls)))
  = first_seen (fun l => enterable l && plain l) ls.
Proof.
  unfold mark, first_seen.
  now rewrite (plain_keys_fold_assign nonempty enterable).
Qed.

Lemma plain_keys_mark_allowed (ls : list string) :
  filter plain (keys (mark_allowed empty (Some ls)))
  = first_seen (fun l => allowed l && plain l) ls.
Proof.
  unfold mark_allowed, first_seen.
  rewrite (fold_left_ext _
             (fun o l =>
                if nonempty l && allowed l then assign o l false else o)).
  - rewrite (plain_keys_fold_assign (fun l => nonempty l && allowed l)
               allowed); [reflexivity|].
    intros l. destruct (allowed l) eqn:E.
    + apply allowed_enterable in E. unfold enterable in E.
      apply andb_true_iff in E. destruct E as [-> ->]. reflexivity.
    + now rewrite andb_false_r.
  - intros o l. now destruct (nonempty l), (allowed l).
Qed.

Lemma carried_In (get : Project.ProjectInfo -> option (list string))
  (d : list Project.ProjectInfo) (x : string) :
  In x (carried get d) <-> exists c ls, In c d /\ get c = Some ls /\ In x ls.
Proof.
  unfold carried. rewrite in_flat_map. split.
  - intros (c & Hc & Hx). destruct (get c) as [ls|] eqn:E; [|destruct Hx].
    now exists c, ls.
  - intros (c & ls & Hc & E & Hx). exists c. now rewrite E.
Qed.

End KeyOrderFacts.

(* ================================================================== *)
(** ** The container keyed on the layer: facets and colour map *)

Module EcosystemLoadFacts.

Import Js Common JsFacts CommonFacts Reference ColourFacts KeyOrderFacts.
Import EcosystemMap.

Lemma fold_collect (d : list Project.ProjectInfo) (f : IFilters) :
  fold_left collect d f =
    {| layer := fold_left (fun o c => mark o (Project.layer c)) d (layer f);
       category :=
         fold_left (fun o c => mark o (Project.category c)) d (category f);
       target_audience :=
         fold_left (fun o c => mark o (Project.target_audience c)) d
           (target_audience f);
       ecosystem :=
         fold_left (fun o c => mark_allowed o (Project.ecosystem c)) d
           (ecosystem f) |}.
Proof.
  revert f. induction d as [|c d IH]; intros f; simpl.
  - now destruct f.
  - now rewrite IH.
Qed.

(** Each filter map of a load is the result of one pass over the values the
    records carry in the matching field. *)
Lemma facets_field (d : list Project.ProjectInfo) (type : TCategory) :
  field (facets d) type =
    match type with
    | Kecosystem =>
        mark_allowed empty (Some (carried (fun c => values c type) d))
    | _ => mark empty (Some (carried (fun c => values c type) d))
    end.
Proof.
  unfold facets. rewrite fold_collect.
  destruct type; cbn [field layer category target_audience ecosystem];
    (apply fold_mark || apply fold_mark_allowed).
Qed.

Lemma facets_keys_enterable (d : list Project.ProjectInfo) (type : TCategory)
  (k : string) :
  In k (keys (field (facets d) type)) -> enterable k = true.
Proof.
  rewrite facets_field. destruct type; intros H;
    (apply in_keys_mark in H || apply in_keys_mark_allowed in H);
    destruct H as [[]|[H _]]; auto using allowed_enterable.
Qed.

Lemma traversal_enterable (d : list Project.ProjectInfo) (k : string) :
  In k (traversal (facets d)) -> k <> "__proto__".
Proof.
  unfold traversal. rewrite !in_app_iff. intros H.
  assert (E : enterable k = true).
  { destruct H as [H|[H|[H|H]]].
    - apply (facets_keys_enterable d Kcategory k H).
    - apply (facets_keys_enterable d Klayer k H).
    - apply (facets_keys_enterable d Ktarget_audience k H).
    - apply (facets_keys_enterable d Kecosystem k H). }
  apply enterable_spec in E. tauto.
Qed.

(** C4, as the code has it.  The colours are handed out over the keys of
    the category map, then of the layer map, then of the audience map, then
    of the ecosystem map, each map in its own key order, which is not the
    alphabetical one: the values that are array indices come first, in
    ascending numeric order, and the other values follow in the order in
    which they first appear in the record sequence.  The value at traversal
    index [i] receives the palette entry at [i] modulo the palette size; a
    value that occurs at several indices keeps the colour of its last
    one. *)
Theorem colours_follow_key_order (colors : list (list N))
  (d : list Project.ProjectInfo) :
  let f := facets d in
  traversal f =
    keys (category f) ++ keys (layer f) ++
    keys (target_audience f) ++ keys (ecosystem f) /\
  (forall i k,
     nth_error (traversal f) i = Some k ->
     (forall j, i < j -> nth_error (traversal f) j <> Some k) ->
     get_own (colours colors f) k = Some (color_at colors i)) /\
  (forall i, colors <> [] ->
     exists e, nth_error colors (i mod length colors) = Some e /\
               color_at colors i = join_numbers e) /\
  (forall type,
     (forall l, In l (carried (fun c => values c type) d) ->
                array_index l = None) ->
     keys (field f type) =
       first_seen
         match type with Kecosystem => allowed | _ => enterable end
         (carried (fun c => values c type) d)) /\
  (forall type,
     let ks := keys (field f type) in
     let entered :=
       match type with Kecosystem => allowed | _ => enterable end in
     let offered := carried (fun c => values c type) d in
     ks = filter is_index ks ++ filter plain ks /\
     StronglySorted index_le (filter is_index ks) /\
     filter plain ks = first_seen (fun l => entered l && plain l) offered /\
     NoDup ks /\
     (forall k, In k ks <-> entered k = true /\ In k offered)).
Proof.
  intros f. split; [reflexivity|]. split; [|split; [|split]].
  - intros i k Hi Hlast. unfold colours.
    rewrite (get_own_paint colors (traversal f) 0 empty i k Hi Hlast);
      [reflexivity|].
    apply (traversal_enterable d). eapply nth_error_In. exact Hi.
  - intros i Hne. now apply color_at_entry.
  - intros type Hplain. unfold f. rewrite facets_field.
    destruct type;
      (now apply keys_mark_first_seen)
      || (now apply keys_mark_allowed_first_seen).
  - intros type ks entered offered.
    pose proof (EcosystemMapFacts.wf_facets d type) as Hwf. fold f in Hwf.
    destruct (ordered_split ks Hwf) as [Hsplit Hsorted].
    split; [exact Hsplit|]. split; [exact Hsorted|]. split; [|split].
    + unfold ks, entered, offered, f. rewrite facets_field.
      destruct type;
        (apply plain_keys_mark) || (apply plain_keys_mark_allowed).
    + now apply wf_NoDup.
    + intros k. unfold ks, entered, offered, f. rewrite facets_field.
      destruct type;
        (rewrite in_keys_mark || rewrite in_keys_mark_allowed);
        (split;
         [ intros [[]|(H & ls & [= <-] & HI)]; now split
         | intros (H & HI); right; split; [exact H|];
           eexists; split; [reflexivity | exact HI] ]).
Qed.

Lemma colours_follow_key_order_witness :
  keys (category (facets [Sample.talisman; Sample.subscan]))
    = ["Wallet"; "API"] /\
  filter plain (keys (category (facets [Sample.numbered])))
    = first_seen (fun l => enterable l && plain l)
        (carried Project.category [Sample.numbered]) /\
  StronglySorted index_le
    (filter is_index (keys (category (facets [Sample.numbered])))).
Proof.
  split.
  - apply (proj1 (proj2 (proj2 (proj2
             (colours_follow_key_order Sample.palette
                [Sample.talisman; Sample.subscan])))) Kcategory).
    intros l Hl. simpl in Hl.
    repeat (destruct Hl as [<-|Hl]; [reflexivity|]). destruct Hl.
  - destruct (colours_follow_key_order Sample.palette [Sample.numbered])
      as (_ & _ & _ & _ & H).
    destruct (H Kcategory) as (_ & H2 & H3 & _).
    split; [exact H3 | exact H2].
Defined.

(** The categories b, 10, a, 2 of one record give the keys 2, 10, b, a, and
    the colours are handed out in that order. *)
Example numbered_keys_first :
  keys (category (facets [Sample.numbered])) = ["2"; "10"; "b"; "a"] /\
  get_own (colours Sample.palette (facets [Sample.numbered])) "2"
    = Some (color_at Sample.palette 0) /\
  get_own (colours Sample.palette (facets [Sample.numbered])) "b"
    = Some (color_at Sample.palette 2).
Proof. vm_compute. repeat split. Qed.

(** C4 as the specification words it: Wallet is seen before API, so the
    category keys are not in alphabetical order; Wallet takes the first
    palette entry and API the second, where an alphabetical traversal would
    give API the first. *)
Lemma colours_not_alphabetical :
  let f := facets [Sample.talisman; Sample.subscan] in
  traversal f = ["Wallet"; "API"; "Layer-3"; "Dev teams"; "Polkadot"] /\
  alphabetical (keys (category f)) = false /\
  color_at Sample.palette 0 = "244,67,54" /\
  get_own (colours Sample.palette f) "Wallet" = Some "244,67,54" /\
  get_own (colours Sample.palette f) "API" = Some "33,150,243" /\
  get_own (colours Sample.palette f) "API"
    <> Some (color_at Sample.palette 0).
Proof.
  cbv zeta. repeat (split; [reflexivity|]). vm_compute. discriminate.
Qed.

End EcosystemLoadFacts.

(* ================================================================== *)
(** ** The container keyed on the status: load, facets and search *)

Module StatusMapFacts.

Import Js Common JsFacts CommonFacts Reference StatusMap.

Lemma in_keys_bump (m : obj count) (l x : string) :
  In x (keys (bump m l)) <-> In x (keys m) \/ (x = l /\ l <> "__proto__").
Proof. unfold bump. apply in_keys_assign. Qed.

(** The keys of the filter map and of the count map after one loop of the
    load effect. *)
Lemma in_keys_tally (allow : string -> bool) (a : option (list string))
  (fc : obj bool * obj count) (x : string) :
  let entered :=
    enterable x = true /\ allow x = true /\
    exists ls, a = Some ls /\ In x ls in
  (In x (keys (fst (tally allow fc a))) <->
     In x (keys (fst fc)) \/ entered) /\
  (In x (keys (snd (tally allow fc a))) <->
     In x (keys (snd fc)) \/ entered).
Proof.
  cbv zeta. destruct a as [ls|]; simpl.
  2:{ split; (split; [tauto|]);
        (intros [H|(_ & _ & ls & H & _)]; [exact H|discriminate]). }
  revert fc. induction ls as [|l ls IH]; intros fc; simpl.
  - split; (split; [tauto|]);
      (intros [H|(_ & _ & ls & [= <-] & [])]; exact H).
  - destruct (IH (if nonempty l
                  then if allow l
                       then (assign (fst fc) l false, bump (snd fc) l)
                       else fc
                  else fc)) as [IH1 IH2].
    rewrite IH1, IH2. clear IH IH1 IH2.
    assert (Hstep :
      forall P : Prop,
        (P <-> (enterable x = true /\ allow x = true /\ x = l)) ->
        forall Q R : Prop,
          (Q <-> (R \/ P)) ->
          (Q \/ (enterable x = true /\ allow x = true /\
                 exists ls0, Some ls = Some ls0 /\ In x ls0)) <->
          (R \/ (enterable x = true /\ allow x = true /\
                 exists ls0, Some (l :: ls) = Some ls0 /\ In x ls0))).
    { intros P HP Q R HQ. rewrite HQ, HP. split.
      - intros [[H|(H1 & H2 & ->)]|(H1 & H2 & ls0 & [= <-] & HI)].
        + now left.
        + right. repeat split; auto. exists (l :: ls).
          split; [reflexivity | now left].
        + right. repeat split; auto. exists (l :: ls).
          split; [reflexivity | now right].
      - intros [H|(H1 & H2 & ls0 & [= <-] & [E|HI])].
        + left. now left.
        + left. right. repeat split; auto.
        + right. repeat split; auto. now exists ls. }
    assert (Hent : forall y, enterable y = true <->
                             nonempty y = true /\ y <> "__proto__").
    { intros y. unfold enterable.
      now rewrite andb_true_iff, negb_true_iff, String.eqb_neq. }
    split.
    + apply (Hstep (nonempty l = true /\ allow l = true /\
                    x = l /\ l <> "__proto__")).
      * rewrite Hent. split.
        -- intros (H1 & H2 & -> & H4). repeat split; auto.
        -- intros ((H1 & H2) & H3 & ->). repeat split; auto.
      * destruct (nonempty l); [|split; [now left | intros [H|(H & _)];
                                          [exact H | discriminate]]].
        destruct (allow l); [|split; [now left | intros [H|(_ & H & _)];
                                       [exact H | discriminate]]].
        cbn [fst]. rewrite in_keys_assign. tauto.
    + apply (Hstep (nonempty l = true /\ allow l = true /\
                    x = l /\ l <> "__proto__")).
      * rewrite Hent. split.
        -- intros (H1 & H2 & -> & H4). repeat split; auto.
        -- intros ((H1 & H2) & H3 & ->). repeat split; auto.
      * destruct (nonempty l); [|split; [now left | intros [H|(H & _)];
                                          [exact H | discriminate]]].
        destruct (allow l); [|split; [now left | intros [H|(_ & H & _)];
                                       [exact H | discriminate]]].
        cbn [snd]. rewrite in_keys_bump. tauto.
Qed.

Lemma ecosystem_collect (fc : IFilters * Counts) (c : Project.ProjectInfo) :
  ecosystem (fst (collect fc c))
    = fst (tally allowed (ecosystem (fst fc), n_ecosystem (snd fc))
             (Project.ecosystem c)) /\
  n_ecosystem (snd (collect fc c))
    = snd (tally allowed (ecosystem (fst fc), n_ecosystem (snd fc))
             (Project.ecosystem c)).
Proof. now destruct fc as [f n]. Qed.

Lemma in_keys_ecosystem_fold (d : list Project.ProjectInfo)
  (fc : IFilters * Counts) (x : string) :
  let carried_by :=
    allowed x = true /\
    exists c ls, In c d /\ Project.ecosystem c = Some ls /\ In x ls in
  (In x (keys (ecosystem (fst (fold_left collect d fc)))) <->
     In x (keys (ecosystem (fst fc))) \/ carried_by) /\
  (In x (keys (n_ecosystem (snd (fold_left collect d fc)))) <->
     In x (keys (n_ecosystem (snd fc))) \/ carried_by).
Proof.
  cbv zeta. revert fc. induction d as [|c d IH]; intros fc; simpl.
  - split; (split; [tauto|]);
      (intros [H|(_ & c & ls & [] & _)]; exact H).
  - destruct (IH (collect fc c)) as [IH1 IH2]. rewrite IH1, IH2.
    destruct (ecosystem_collect fc c) as [-> ->].
    destruct (in_keys_tally allowed (Project.ecosystem c)
                (ecosystem (fst fc), n_ecosystem (snd fc)) x) as [T1 T2].
    cbn [fst snd] in T1, T2. rewrite T1, T2. clear IH IH1 IH2 T1 T2.
    assert (Hgen : forall R : Prop,
      ((R \/ (enterable x = true /\ allowed x = true /\
              exists ls, Project.ecosystem c = Some ls /\ In x ls)) \/
       (allowed x = true /\
        exists c0 ls, In c0 d /\ Project.ecosystem c0 = Some ls /\ In x ls))
      <->
      (R \/ (allowed x = true /\
             exists c0 ls, (c = c0 \/ In c0 d) /\
                           Project.ecosystem c0 = Some ls /\ In x ls))).
    { intros R. split.
      - intros [[H|(_ & Ha & ls & Hc & HI)]|(Ha & c0 & ls & Hd & Hc & HI)].
        + now left.
        + right. split; [exact Ha|]. exists c, ls. auto.
        + right. split; [exact Ha|]. exists c0, ls. auto.
      - intros [H|(Ha & c0 & ls & [<-|Hd] & Hc & HI)].
        + left. now left.
        + left. right. split; [now apply allowed_enterable|].
          split; [exact Ha|]. now exists ls.
        + right. split; [exact Ha|]. now exists c0, ls. }
    split; apply Hgen.
Qed.

(** What a load leaves in the state, whatever the state was before. *)
Lemma load_facets (lower : string -> string) (colors : list (list N))
  (s : State)
  (d : list Project.ProjectInfo) :
  filters (load lower colors s d) = fst (facets d) /\
  counts (load lower colors s d) = snd (facets d) /\
  colorMap (load lower colors s d) = colours colors (fst (facets d)).
Proof. unfold load. destruct (facets d) as [f n]. simpl. repeat split. Qed.

(** C5.  The filter maps (the facet value sets), the count maps and the
    colour map that a load leaves behind are functions of the loaded record
    sequence and the palette alone: two loads of the same sequence, from
    whatever earlier states, give the same three, in either container. *)
Theorem load_deterministic (lower : string -> string)
  (colors : list (list N))
  (d : list Project.ProjectInfo) (s1 s2 : State)
  (e1 e2 : EcosystemMap.State) :
  (filters (load lower colors s1 d) = filters (load lower colors s2 d) /\
   counts (load lower colors s1 d) = counts (load lower colors s2 d) /\
   colorMap (load lower colors s1 d) = colorMap (load lower colors s2 d)) /\
  (filters (load lower colors s1 d) = fst (facets d) /\
   counts (load lower colors s1 d) = snd (facets d) /\
   colorMap (load lower colors s1 d) = colours colors (fst (facets d))) /\
  (EcosystemMap.filters (EcosystemMap.load colors e1 d)
     = EcosystemMap.filters (EcosystemMap.load colors e2 d) /\
   EcosystemMap.colorMap (EcosystemMap.load colors e1 d)
     = EcosystemMap.colorMap (EcosystemMap.load colors e2 d)).
Proof.
  destruct (load_facets lower colors s1 d) as (F1 & N1 & C1).
  destruct (load_facets lower colors s2 d) as (F2 & N2 & C2).
  split; [|split].
  - rewrite F1, F2, N1, N2, C1, C2. repeat split.
  - repeat split; assumption.
  - split; reflexivity.
Qed.

(** C6.  After a load, the keys of the ecosystem filter map, and of the
    ecosystem count map, are exactly the values of the allow-list (Acala
    Network, Aleph Zero, Astar Network, Kusama, Moonbeam, Polkadot) that some
    record carries in its ecosystem field; they are non-empty, and a value
    outside the list, such as Ethereum, is never a key. *)
Theorem ecosystem_facet_allow_list (lower : string -> string)
  (colors : list (list N)) (s : State)
  (d : list Project.ProjectInfo) (x : string) :
  let carried_by :=
    exists c ls, In c d /\ Project.ecosystem c = Some ls /\ In x ls in
  (In x (keys (ecosystem (filters (load lower colors s d)))) <->
     allowed x = true /\ carried_by) /\
  (In x (keys (n_ecosystem (counts (load lower colors s d)))) <->
     allowed x = true /\ carried_by) /\
  (allowed x = true <->
     In x ["Acala Network"; "Aleph Zero"; "Astar Network";
           "Kusama"; "Moonbeam"; "Polkadot"]) /\
  (allowed x = true -> x <> "") /\
  ~ In "Ethereum" (keys (ecosystem (filters (load lower colors s d)))).
Proof.
  cbv zeta.
  destruct (load_facets lower colors s d) as (Hf & Hn & _).
  rewrite Hf, Hn. unfold facets.
  assert (Hkeys : forall y,
    (In y (keys (ecosystem (fst (fold_left collect d (no_filters, no_counts)))))
       <-> allowed y = true /\
           exists c ls, In c d /\ Project.ecosystem c = Some ls /\ In y ls)
    /\
    (In y (keys (n_ecosystem
                   (snd (fold_left collect d (no_filters, no_counts)))))
       <-> allowed y = true /\
           exists c ls, In c d /\ Project.ecosystem c = Some ls /\ In y ls)).
  { intros y.
    destruct (in_keys_ecosystem_fold d (no_filters, no_counts) y) as [K1 K2].
    rewrite K1, K2. simpl. tauto. }
  split; [apply Hkeys|]. split; [apply Hkeys|]. split; [|split].
  - unfold allowed. rewrite existsb_exists. split.
    + intros (y & Hy & E). apply String.eqb_eq in E. now subst y.
    + intros H. exists x. split; [exact H | apply String.eqb_refl].
  - intros H ->. discriminate H.
  - intros H. apply Hkeys in H. destruct H as [H _]. discriminate H.
Qed.

Lemma ecosystem_facet_allow_list_witness :
  keys (ecosystem (filters
          (load Sample.lower Sample.palette initial [Sample.acala; Sample.moonbeam])))
    = ["Polkadot"; "Acala Network"; "Moonbeam"] /\
  "Moonbeam" <> "".
Proof.
  split; [reflexivity|].
  apply (proj1 (proj2 (proj2 (proj2
           (ecosystem_facet_allow_list Sample.lower Sample.palette initial
              [Sample.acala; Sample.moonbeam] "Moonbeam"))))).
  reflexivity.
Defined.

End StatusMapFacts.

(* ================================================================== *)
(** ** Free-text search *)

Module SearchFacts.

Import Js Common StatusMap.

Lemma units_prefix_spec (t s : list N) :
  units_prefix t s = true <-> exists b, s = t ++ b.
Proof.
  revert s. induction t as [|x t IH]; intros s; simpl.
  - split; [intros _; now exists s | reflexivity].
  - destruct s as [|y s].
    + split; [discriminate | intros [b H]; discriminate H].
    + rewrite andb_true_iff, N.eqb_eq, IH. split.
      * intros [-> [b ->]]. now exists b.
      * intros [b [= -> ->]]. split; [reflexivity | now exists b].
Qed.

Lemma units_includes_spec (s t : list N) :
  units_includes s t = true <-> exists a b, s = a ++ t ++ b.
Proof.
  split.
  - induction s as [|c s IH]; cbn [units_includes]; rewrite orb_true_iff.
    + intros [H|H]; [|discriminate].
      apply units_prefix_spec in H. destruct H as [b H]. now exists [], b.
    + intros [H|H].
      * apply units_prefix_spec in H. destruct H as [b H]. now exists [], b.
      * destruct (IH H) as (a & b & E). exists (c :: a), b.
        simpl. now rewrite E.
  - intros (a & b & E). revert s E. induction a as [|c a IH]; intros s E.
    + simpl in E.
      assert (H : units_prefix t s = true)
        by (apply units_prefix_spec; now exists b).
      destruct s; cbn [units_includes]; now rewrite H.
    + simpl in E. subst s. cbn [units_includes]. rewrite (IH _ eq_refl).
      apply orb_true_r.
Qed.

(** [includes] decides the substring relation on code units. *)
Lemma includes_spec (s t : string) :
  includes s t = true <->
  exists a b, code_units s = a ++ code_units t ++ b.
Proof. apply units_includes_spec. Qed.

Lemma nonempty_spec (s : string) : nonempty s = true <-> s <> ""%string.
Proof. destruct s; simpl; split; congruence || discriminate || auto. Qed.

Lemma passes_search_split (toLowerCase : string -> string) (f : IFilters)
  (search : string) (p : Project.ProjectInfo) :
  passes toLowerCase f search p =
    passes_dimension f Kcategory p && passes_dimension f Kstatus p &&
    passes_dimension f Ktarget_audience p && passes_dimension f Kecosystem p &&
    matches_search toLowerCase search p.
Proof. reflexivity. Qed.

(** C7.  Let [search] be the query, trimmed and lower-cased, whatever case
    mapping the runtime applies.  When [search] is non-empty, a record is
    included only if [search] is a substring of its lower-cased name or of
    its lower-cased description (its code units occur there in a row); when
    [search] is empty, the free-text condition holds of every record, and
    inclusion is decided by the four dimensions alone.  A query of white
    space only is such a query, as the case mapping leaves the empty string
    empty. *)
Theorem search_substring (toLowerCase : string -> string) (f : IFilters)
  (q : string) (p : Project.ProjectInfo) :
  let search := search_of toLowerCase q in
  search_of toLowerCase q = toLowerCase (trim q) /\
  (search <> ""%string -> passes toLowerCase f search p = true ->
   (exists a b,
      code_units (toLowerCase (Project.name p))
        = a ++ code_units search ++ b) \/
   (exists a b,
      code_units (toLowerCase (Project.description p))
        = a ++ code_units search ++ b)) /\
  (search <> ""%string ->
   (passes toLowerCase f search p = true <->
    (passes_dimension f Kcategory p && passes_dimension f Kstatus p &&
     passes_dimension f Ktarget_audience p &&
     passes_dimension f Kecosystem p) = true /\
    (includes (toLowerCase (Project.name p)) search = true \/
     includes (toLowerCase (Project.description p)) search = true))) /\
  (search = ""%string ->
   matches_search toLowerCase search p = true /\
   passes toLowerCase f search p =
     (passes_dimension f Kcategory p && passes_dimension f Kstatus p &&
      passes_dimension f Ktarget_audience p &&
      passes_dimension f Kecosystem p)) /\
  (forall s, filters s = f -> query s = q ->
     (In p (data (filterProjects toLowerCase s)) <->
      In p (ecosystemProjects s) /\ passes toLowerCase f search p = true)) /\
  (toLowerCase ""%string = ""%string -> trim q = ""%string ->
   search = ""%string /\ matches_search toLowerCase search p = true).
Proof.
  intros search. split; [reflexivity|].
  assert (Hm : search <> ""%string ->
               matches_search toLowerCase search p =
                 (includes (toLowerCase (Project.name p)) search
                  || includes (toLowerCase (Project.description p)) search)).
  { intros Hne. unfold matches_search.
    apply nonempty_spec in Hne. now rewrite Hne. }
  split; [|split; [|split; [|split]]].
  - intros Hne. rewrite passes_search_split, andb_true_iff, (Hm Hne), orb_true_iff.
    rewrite !includes_spec. tauto.
  - intros Hne. rewrite passes_search_split, andb_true_iff, (Hm Hne), orb_true_iff.
    tauto.
  - intros E. rewrite passes_search_split. unfold matches_search. rewrite E. simpl.
    split; [reflexivity | now rewrite andb_true_r].
  - intros s <- <-. unfold filterProjects. cbn [data]. apply filter_In.
  - intros Hlow Htrim.
    assert (E : search = ""%string)
      by (unfold search, search_of; now rewrite Htrim, Hlow).
    split; [exact E|]. now rewrite E.
Qed.

(** The query [" Moon "] keeps Moonbeam, whose lower-cased name contains
    ["moon"], and the theorem yields the place of the match. *)
Lemma search_substring_witness :
  search_of Sample.lower " Moon " = "moon" /\
  ((exists a b,
      code_units (Sample.lower (Project.name Sample.moonbeam))
        = a ++ code_units (search_of Sample.lower " Moon ") ++ b) \/
   (exists a b,
      code_units (Sample.lower (Project.description Sample.moonbeam))
        = a ++ code_units (search_of Sample.lower " Moon ") ++ b)).
Proof.
  split; [reflexivity|].
  apply (proj1 (proj2
           (search_substring Sample.lower no_filters " Moon "
              Sample.moonbeam)));
    [discriminate | reflexivity].
Defined.

End SearchFacts.

(* ================================================================== *)
(** ** The timestamp 0 *)

Module EpochFacts.

Import Js Card CardFacts.

(** C10.  A most recent sample whose value is 0 denotes a valid instant, the
    epoch, yet the classifier answers [default] (unknown), and never
    [inactive], at every evaluation instant: its first test takes the number
    0 for an absent timestamp.  So does the card whose last sample is 0. *)
Theorem epoch_sample_is_unknown (now : Z) :
  Date_getTime (0 * 1000) = Some 0%Z /\
  getActivityIndicator now (Some 0%Z) = ACTIVITY_INDICATORS default /\
  getActivityIndicator now (Some 0%Z) <> ACTIVITY_INDICATORS inactive /\
  getActivityIndicator now (Some 0%Z) = getActivityIndicator now None /\
  (forall card l s,
     samples card = l ++ [s] -> Project.value s = 0%Z ->
     fst (Card.Card now card) = ACTIVITY_INDICATORS default).
Proof.
  split; [reflexivity|]. split; [reflexivity|]. split; [|split].
  - change (getActivityIndicator now (Some 0%Z))
      with (ACTIVITY_INDICATORS default).
    intros H. apply labels_distinct in H. discriminate H.
  - reflexivity.
  - intros card l s E Hs. rewrite (Card_last now card l s E). simpl.
    now rewrite Hs.
Qed.

(** Moonbeam's last sample is 0: although the epoch lies far more than 180
    days before [Sample.now], its card reads unknown. *)
Lemma epoch_sample_is_unknown_witness :
  (180 < diffDays Sample.now (0 * 1000))%Z /\
  fst (Card.Card Sample.now Sample.moonbeam) = ACTIVITY_INDICATORS default.
Proof.
  split; [reflexivity|].
  apply (proj2 (proj2 (proj2 (proj2 (epoch_sample_is_unknown Sample.now))))
           Sample.moonbeam
           [{| Project.date := "2023-11-01"; Project.value := 1690000000 |}]
           {| Project.date := "2023-11-01"; Project.value := 0 |});
    reflexivity.
Defined.

Lemma Card_removes_last_sample_witness :
  length (samples (snd (Card.Card Sample.now Sample.acala))) <
  length (samples Sample.acala).
Proof.
  apply (proj2 (proj2 (Card_removes_last_sample Sample.now Sample.acala))).
  discriminate.
Defined.

End EpochFacts.

(* ================================================================== *)
(** ** The container keyed on the status: filter state and query *)

Module StatusFilterFacts.

Import Js Common JsFacts CommonFacts StatusMap.

Lemma status_field_with_field (f : IFilters) (type : TCategory) (o : obj bool) :
  field (with_field f type o) type = o.
Proof. now destruct type. Qed.

Lemma status_with_field_twice (f : IFilters) (type : TCategory) (o o' : obj bool) :
  with_field (with_field f type o) type o' = with_field f type o'.
Proof. now destruct type. Qed.

Lemma status_with_field_same (f : IFilters) (type : TCategory) :
  with_field f type (field f type) = f.
Proof. now destruct f, type. Qed.

Lemma every_equal_spec (sel : list string) (t : option string) :
  every_equal sel t = true <-> forall c, In c sel -> t = Some c.
Proof.
  unfold every_equal. rewrite forallb_forall.
  split; intros H c Hc; specialize (H c Hc).
  - destruct t as [x|]; [|discriminate]. apply String.eqb_eq in H. now subst.
  - rewrite H. apply String.eqb_refl.
Qed.

(** The status constraint compares for equality: it holds iff every selected
    status is the record's technology readiness, so two selected statuses
    exclude every record. *)
Lemma status_two_selected (f : IFilters) (p : Project.ProjectInfo)
  (a b : string) :
  In a (selected (status f)) -> In b (selected (status f)) -> a <> b ->
  passes_dimension f Kstatus p = false.
Proof.
  intros Ha Hb Hne.
  destruct (passes_dimension f Kstatus p) eqn:E; [|reflexivity].
  simpl in E. rewrite every_equal_spec in E.
  pose proof (E a Ha) as E1. pose proof (E b Hb) as E2. congruence.
Qed.

Lemma toggle_twice_status (f : IFilters) (type : TCategory) (v : string) :
  wf (field f type) -> has_own (field f type) v = true ->
  toggleFilterByCategory (toggleFilterByCategory f type v) type v = f.
Proof.
  intros Hwf Hv. unfold toggleFilterByCategory.
  rewrite status_field_with_field, status_with_field_twice.
  rewrite (flip_twice (field f type) v Hwf Hv).
  apply status_with_field_same.
Qed.

(** The scenario of the two-record catalogue: DeFi selected, then the query
    "moon", then DeFi cleared. *)
Example scenario_defi_then_moon :
  let s0 := load Sample.lower Sample.palette initial
              [Sample.acala; Sample.moonbeam] in
  let s1 := toggle Sample.lower s0 Kcategory "DeFi" in
  let s2 := setQuery Sample.lower s1 "moon" in
  let s3 := toggle Sample.lower s2 Kcategory "DeFi" in
  map Project.name (data s1) = ["Acala"] /\
  map Project.name (data s2) = [] /\
  map Project.name (data s3) = ["Moonbeam"].
Proof. cbv zeta. repeat split. Qed.

End StatusFilterFacts.

(* ================================================================== *)
(** ** Order on strings and the two sorts *)

Module OrderFacts.

Import Js Common Insertion.

(** The order is that of the UTF-16 code units: upper case before lower
    case, a prefix before its extensions, and a character outside the basic
    plane (two surrogate units) before U+FF5E. *)
Example lt_code_units :
  Js.lt "Z" "a" = true /\ Js.lt "a" "ab" = true /\ Js.lt "ab" "b" = true /\
  code_units "😀" = [55357; 56832]%N /\ code_units "～" = [65374]%N /\
  Js.lt "😀" "～" = true /\ Js.lt "～" "😀" = false /\
  Js.lt "é" "z" = false.
Proof. vm_compute. repeat split. Qed.

(** [trim] removes the white space of the language at both ends and keeps
    the white space inside. *)
Example trim_white_space :
  trim "  a b  " = "a b" /\
  trim " moon　" = "moon" /\
  trim " " = ""%string /\
  trim "﻿ x " = "x" /\
  trim "é " = "é".
Proof. vm_compute. repeat split. Qed.

(** Every white space character beyond U+0020, given by the bytes of its
    encoding (U+1680, U+2000 to U+200A, U+2028, U+2029, U+202F, U+205F,
    U+3000, U+FEFF, U+00A0), is removed at either end. *)
Example trim_every_white_space :
  let ws :=
    string_of_list_ascii
      (map ascii_of_nat
         [ 225; 154; 128; 226; 128; 128; 226; 128; 129; 226; 128; 130;
           226; 128; 131; 226; 128; 132; 226; 128; 133; 226; 128; 134;
           226; 128; 135; 226; 128; 136; 226; 128; 137; 226; 128; 138;
           226; 128; 168; 226; 128; 169; 226; 128; 175; 226; 129; 159;
           227; 128; 128; 239; 187; 191; 194; 160 ]) in
  trim (ws ++ "x y" ++ ws)%string = "x y" /\ trim ws = ""%string.
Proof. vm_compute. split; reflexivity. Qed.

Lemma compare_units_refl (a : list N) : compare_units a a = Eq.
Proof.
  induction a as [|x a IH]; simpl; [reflexivity|].
  now rewrite N.compare_refl.
Qed.

Lemma compare_units_antisym (a b : list N) :
  compare_units a b = CompOpp (compare_units b a).
Proof.
  revert b. induction a as [|x a IH]; intros [|y b]; simpl; try reflexivity.
  rewrite (N.compare_antisym y x).
  destruct (y ?= x)%N; simpl; [apply IH | reflexivity | reflexivity].
Qed.

Lemma compare_units_lt_trans (a b c : list N) :
  compare_units a b = Lt -> compare_units b c = Lt ->
  compare_units a c = Lt.
Proof.
  revert b c. induction a as [|x a IH]; intros [|y b] [|z c]; simpl;
    try discriminate; try reflexivity.
  destruct (x ?= y)%N eqn:Exy; try discriminate;
    destruct (y ?= z)%N eqn:Eyz; try discriminate.
  - apply N.compare_eq in Exy, Eyz. subst.
    rewrite N.compare_refl. apply IH.
  - apply N.compare_eq in Exy. subst. now rewrite Eyz.
  - apply N.compare_eq in Eyz. subst. now rewrite Exy.
  - rewrite N.compare_lt_iff in Exy, Eyz.
    assert (E : (x ?= z)%N = Lt) by (rewrite N.compare_lt_iff; lia).
    now rewrite E.
Qed.

Lemma compare_units_eq (a b : list N) : compare_units a b = Eq -> a = b.
Proof.
  revert b. induction a as [|x a IH]; intros [|y b]; simpl;
    try discriminate; [reflexivity|].
  destruct (x ?= y)%N eqn:E; try discriminate.
  apply N.compare_eq in E. subst. intros H. now rewrite (IH b H).
Qed.

(** [<] on strings is irreflexive and asymmetric. *)
Lemma lt_irrefl (s : string) : Js.lt s s = false.
Proof. unfold Js.lt. now rewrite compare_units_refl. Qed.

Lemma lt_asym (a b : string) : Js.lt a b = true -> Js.lt b a = false.
Proof.
  unfold Js.lt. rewrite (compare_units_antisym (code_units b)).
  now destruct (compare_units (code_units a) (code_units b)).
Qed.

Lemma le_refl (s : string) : Js.le s s = true.
Proof. unfold Js.le. now rewrite lt_irrefl. Qed.

Lemma le_total_false (x y : string) :
  Js.le x y = false -> Js.le y x = true.
Proof.
  unfold Js.le. rewrite !negb_false_iff, negb_true_iff. apply lt_asym.
Qed.

Lemma le_trans (a b c : string) :
  Js.le a b = true -> Js.le b c = true -> Js.le a c = true.
Proof.
  unfold Js.le, Js.lt.
  rewrite (compare_units_antisym (code_units b) (code_units a)),
    (compare_units_antisym (code_units c) (code_units b)),
    (compare_units_antisym (code_units c) (code_units a)).
  destruct (compare_units (code_units a) (code_units b)) eqn:Eab;
    try discriminate;
    destruct (compare_units (code_units b) (code_units c)) eqn:Ebc;
    try discriminate; intros _ _.
  - apply compare_units_eq in Eab. rewrite Eab, Ebc. reflexivity.
  - apply compare_units_eq in Eab. rewrite Eab, Ebc. reflexivity.
  - apply compare_units_eq in Ebc. rewrite <- Ebc, Eab. reflexivity.
  - now rewrite (compare_units_lt_trans _ _ _ Eab Ebc).
Qed.

(** The comparator answers "not after" exactly when the names are in the
    order asked for. *)
Lemma compare_by_name_le (asc : bool) (a b : Project.ProjectInfo) :
  (compare_by_name asc a b <=? 0)%Z = name_le asc a b.
Proof.
  unfold compare_by_name, name_le, Js.le.
  destruct (Js.lt (Project.name a) (Project.name b)) eqn:Eab.
  - rewrite (lt_asym _ _ Eab). now destruct asc.
  - destruct (Js.lt (Project.name b) (Project.name a)), asc; reflexivity.
Qed.

Lemma insert_sorted_insert (asc : bool) (x : Project.ProjectInfo)
  (l : list Project.ProjectInfo) :
  insert_sorted asc x l = insert (name_le asc) x l.
Proof.
  induction l as [|y t IH]; simpl; [reflexivity|].
  now rewrite compare_by_name_le, IH.
Qed.

Lemma sort_projects_isort (asc : bool) (l : list Project.ProjectInfo) :
  sort_projects asc l = isort (name_le asc) l.
Proof.
  unfold sort_projects, isort. induction l as [|x l IH]; simpl;
    [reflexivity | now rewrite IH, insert_sorted_insert].
Qed.

Lemma insert_string_insert (x : string) (l : list string) :
  ChipFilterBlock.insert_string x l = insert Js.le x l.
Proof. induction l as [|y t IH]; simpl; [reflexivity | now rewrite IH]. Qed.

Lemma sort_isort (l : list string) :
  ChipFilterBlock.sort l = isort Js.le l.
Proof.
  unfold ChipFilterBlock.sort, isort. induction l as [|x l IH]; simpl;
    [reflexivity | now rewrite IH, insert_string_insert].
Qed.

Section InsertionFacts.
Context {A : Type} (le : A -> A -> bool).
Hypothesis le_total : forall x y, le x y = false -> le y x = true.
Hypothesis le_trans :
  forall x y z, le x y = true -> le y z = true -> le x z = true.

Let R (x y : A) : Prop := le x y = true.

Lemma insert_perm (x : A) (l : list A) : Permutation (insert le x l) (x :: l).
Proof.
  induction l as [|y t IH]; simpl; [reflexivity|].
  destruct (le x y); [reflexivity|].
  rewrite IH. apply perm_swap.
Qed.

Lemma isort_perm (l : list A) : Permutation (isort le l) l.
Proof.
  induction l as [|x l IH]; simpl; [reflexivity|].
  rewrite insert_perm. now constructor.
Qed.

Lemma insert_sorted_gen (x : A) (l : list A) :
  StronglySorted R l -> StronglySorted R (insert le x l).
Proof.
  induction 1 as [|y t Hs IH Hall]; simpl.
  - repeat constructor.
  - destruct (le x y) eqn:E.
    + constructor; [now constructor|]. constructor; [exact E|].
      eapply Forall_impl; [|exact Hall]. intros z Hz. unfold R in *. eauto.
    + constructor; [exact IH|].
      apply (Permutation_Forall (Permutation_sym (insert_perm x t))).
      constructor; [now apply le_total | exact Hall].
Qed.

Lemma isort_sorted (l : list A) : StronglySorted R (isort le l).
Proof.
  induction l as [|x l IH]; simpl; [constructor | now apply insert_sorted_gen].
Qed.

Lemma isort_fixed (l : list A) : StronglySorted R l -> isort le l = l.
Proof.
  induction 1 as [|x t Hs IH Hall]; simpl; [reflexivity|].
  rewrite IH. destruct t as [|y t']; simpl; [reflexivity|].
  now rewrite (Forall_inv Hall).
Qed.

Lemma filter_insert (P : A -> bool) (x : A) (l : list A) :
  (forall y, P x = true -> le x y = false -> P y = false) ->
  filter P (insert le x l) = filter P (x :: l).
Proof.
  intros HP. induction l as [|y t IH]; simpl; [reflexivity|].
  destruct (le x y) eqn:E; simpl; [reflexivity|].
  rewrite IH. simpl. destruct (P x) eqn:Ex; [|reflexivity].
  now rewrite (HP y eq_refl E).
Qed.

Lemma filter_isort (P : A -> bool) (l : list A) :
  (forall x y, P x = true -> le x y = false -> P y = false) ->
  filter P (isort le l) = filter P l.
Proof.
  intros HP. induction l as [|x l IH]; simpl; [reflexivity|].
  rewrite filter_insert by apply HP. simpl. now rewrite IH.
Qed.

End InsertionFacts.

Lemma name_le_total (asc : bool) (x y : Project.ProjectInfo) :
  name_le asc x y = false -> name_le asc y x = true.
Proof. unfold name_le. destruct asc; apply le_total_false. Qed.

Lemma name_le_trans (asc : bool) (x y z : Project.ProjectInfo) :
  name_le asc x y = true -> name_le asc y z = true -> name_le asc x z = true.
Proof. unfold name_le. destruct asc; eauto using le_trans. Qed.

End OrderFacts.

(* ================================================================== *)
(** ** sortProjects *)

Module SortFacts.

Import Js Common Insertion OrderFacts JsFacts CommonFacts.

Lemma sort_projects_sorted (l : list Project.ProjectInfo) :
  by_name (sort_projects true l).
Proof.
  unfold by_name. rewrite sort_projects_isort.
  apply (isort_sorted (name_le true) (name_le_total true) (name_le_trans true)).
Qed.

Lemma sort_projects_perm (asc : bool) (l : list Project.ProjectInfo) :
  Permutation (sort_projects asc l) l.
Proof. rewrite sort_projects_isort. apply isort_perm. Qed.

Lemma sorted_filter {A : Type} (R : A -> A -> Prop) (f : A -> bool)
  (l : list A) :
  StronglySorted R l -> StronglySorted R (filter f l).
Proof.
  induction 1 as [|x t Hs IH Hall]; simpl; [constructor|].
  destruct (f x); [|exact IH]. constructor; [exact IH|].
  apply Forall_forall. intros y Hy. apply filter_In in Hy.
  rewrite Forall_forall in Hall. now apply Hall.
Qed.

(** X1.  [sortProjects] stores a rearrangement of the records it is given,
    in ascending order of name (the order [<] of the language, by UTF-16
    code unit: upper case before lower case); for the descending flag the
    order is the reverse one.  Nothing is lost
    or duplicated, and the other state is left alone. *)
Theorem sortProjects_sorted (s : EcosystemMap.State)
  (projects : list Project.ProjectInfo) :
  let s' := EcosystemMap.sortProjects s projects in
  Permutation (EcosystemMap.ecosystemProjects s') projects /\
  by_name (EcosystemMap.ecosystemProjects s') /\
  StronglySorted
    (fun a b => Js.le (Project.name b) (Project.name a) = true)
    (sort_projects false projects) /\
  Permutation (sort_projects false projects) projects /\
  EcosystemMap.filters s' = EcosystemMap.filters s /\
  EcosystemMap.colorMap s' = EcosystemMap.colorMap s.
Proof.
  cbv zeta. simpl. split; [apply sort_projects_perm|].
  split; [apply sort_projects_sorted|]. split; [|split; [|split]].
  - rewrite sort_projects_isort.
    apply (isort_sorted (name_le false) (name_le_total false)
             (name_le_trans false)).
  - apply sort_projects_perm.
  - reflexivity.
  - reflexivity.
Qed.

(** X2.  The sort is stable and idempotent: records that share a name keep
    their relative order, a list already in name order is returned as it
    is, and so sorting twice gives what sorting once gives. *)
Theorem sortProjects_stable (projects : list Project.ProjectInfo) :
  (forall n,
     filter (fun p => String.eqb (Project.name p) n)
       (sort_projects true projects)
     = filter (fun p => String.eqb (Project.name p) n) projects) /\
  (by_name projects -> sort_projects true projects = projects) /\
  sort_projects true (sort_projects true projects)
    = sort_projects true projects.
Proof.
  assert (Hfix : forall l, by_name l -> sort_projects true l = l).
  { intros l Hl. rewrite sort_projects_isort.
    apply (isort_fixed (name_le true)). exact Hl. }
  split; [|split].
  - intros n. rewrite sort_projects_isort. apply filter_isort.
    intros x y Hx Hle. apply String.eqb_eq in Hx.
    apply String.eqb_neq. intros Hy. unfold name_le in Hle.
    rewrite Hx, Hy, le_refl in Hle. discriminate.
  - apply Hfix.
  - apply Hfix. apply sort_projects_sorted.
Qed.

(** A name outside the basic plane sorts before U+FF5E, as its first code
    unit is a surrogate; B sorts before a. *)
Example sort_by_code_unit :
  map Project.name
    (sort_projects true
       [Sample.staged "～" "In research"; Sample.staged "a" "In research";
        Sample.staged "😀" "In research"; Sample.staged "B" "In research"])
  = ["B"; "a"; "😀"; "～"].
Proof. vm_compute. reflexivity. Qed.

Lemma sortProjects_stable_witness :
  sort_projects true [Sample.acala; Sample.moonbeam; Sample.talisman]
    = [Sample.acala; Sample.moonbeam; Sample.talisman].
Proof.
  apply (proj1 (proj2
           (sortProjects_stable
              [Sample.acala; Sample.moonbeam; Sample.talisman]))).
  unfold by_name. repeat constructor.
Defined.

(** X3.  Whatever chips are clicked after a load, the record store stays
    the loaded records in name order, and the visible records are a
    selection of them in that same order: filtering never reorders and
    never shows a record that was not loaded. *)
Theorem visible_records_in_name_order (colors : list (list N))
  (s0 : EcosystemMap.State) (d : list Project.ProjectInfo)
  (clicks : list (EcosystemMap.TCategory * string)) :
  let s := Session.after_toggles colors s0 d clicks in
  EcosystemMap.ecosystemProjects s = sort_projects true d /\
  EcosystemMap.data s
    = filter (EcosystemMap.passes (EcosystemMap.filters s))
        (sort_projects true d) /\
  by_name (EcosystemMap.data s) /\
  (forall p, In p (EcosystemMap.data s) -> In p d).
Proof.
  cbv zeta. unfold Session.after_toggles.
  assert (H : forall s,
    EcosystemMap.ecosystemProjects s = sort_projects true d ->
    EcosystemMap.data s
      = filter (EcosystemMap.passes (EcosystemMap.filters s))
          (sort_projects true d) ->
    let s' := fold_left
                (fun s tk => EcosystemMap.toggle s (fst tk) (snd tk))
                clicks s in
    EcosystemMap.ecosystemProjects s' = sort_projects true d /\
    EcosystemMap.data s'
      = filter (EcosystemMap.passes (EcosystemMap.filters s'))
          (sort_projects true d)).
  { induction clicks as [|[t k] clicks IH]; intros s H1 H2; simpl.
    - now split.
    - apply IH; simpl; [exact H1 | now rewrite H1]. }
  destruct (H (EcosystemMap.load colors s0 d) eq_refl eq_refl) as [E1 E2].
  split; [exact E1|]. split; [exact E2|]. rewrite E2. split.
  - apply sorted_filter. apply (sort_projects_sorted d).
  - intros p Hp. apply filter_In in Hp. destruct Hp as [Hp _].
    apply (Permutation_in _ (sort_projects_perm true d) Hp).
Qed.

End SortFacts.

(* ================================================================== *)
(** ** What a load leaves in the filter maps *)

Module FacetFacts.

Import Js Common JsFacts CommonFacts Reference ColourFacts.

Lemma get_own_assign_cases {V : Type} (o : obj V) (k k' : string) (v b : V) :
  get_own (assign o k v) k' = Some b -> b = v \/ get_own o k' = Some b.
Proof.
  destruct (string_dec k' k) as [->|Hne].
  - unfold assign. destruct (has_own o k) eqn:E.
    + rewrite get_own_update_same by exact E. intros [= <-]. now left.
    + destruct (String.eqb k "__proto__"); [now right|].
      rewrite get_own_insert_new_same; [intros [= <-]; now left|].
      unfold has_own in E. now destruct (get_own o k).
  - rewrite get_own_assign_other by exact Hne. now right.
Qed.

Lemma flags_mark (o : obj bool) (a : option (list string)) :
  (forall k b, get_own o k = Some b -> b = false) ->
  forall k b, get_own (mark o a) k = Some b -> b = false.
Proof.
  destruct a as [ls|]; simpl; [|auto].
  revert o. induction ls as [|l ls IH]; intros o Ho; simpl; [exact Ho|].
  apply IH. destruct (nonempty l); [|exact Ho].
  intros k b H. apply get_own_assign_cases in H. destruct H; eauto.
Qed.

Lemma flags_mark_allowed (o : obj bool) (a : option (list string)) :
  (forall k b, get_own o k = Some b -> b = false) ->
  forall k b, get_own (mark_allowed o a) k = Some b -> b = false.
Proof.
  destruct a as [ls|]; simpl; [|auto].
  revert o. induction ls as [|l ls IH]; intros o Ho; simpl; [exact Ho|].
  apply IH. destruct (nonempty l); [|exact Ho].
  destruct (allowed l); [|exact Ho].
  intros k b H. apply get_own_assign_cases in H. destruct H; eauto.
Qed.

Lemma selected_nil (o : obj bool) :
  (forall k b, get_own o k = Some b -> b = false) -> selected o = [].
Proof.
  intros Ho. unfold selected.
  assert (H : forall l, (forall k, In k l -> In k (keys o)) ->
                        filter (fun k => truthy_get o k) l = []).
  { induction l as [|k l IH]; intros Hl; simpl; [reflexivity|].
    assert (E : truthy_get o k = false).
    { unfold truthy_get. destruct (get_own o k) as [b|] eqn:G.
      - now apply (Ho k).
      - apply get_own_None in G. exfalso. apply G, Hl. now left. }
    rewrite E. apply IH. intros k' Hk'. apply Hl. now right. }
  apply H. auto.
Qed.

Lemma filter_all {A : Type} (f : A -> bool) (l : list A) :
  (forall x, f x = true) -> filter f l = l.
Proof.
  intros H. induction l as [|x l IH]; simpl; [reflexivity|].
  now rewrite H, IH.
Qed.

Lemma in_carried (get : Project.ProjectInfo -> option (list string))
  (d : list Project.ProjectInfo) (x : string) :
  In x (carried get d) <-> exists c ls, In c d /\ get c = Some ls /\ In x ls.
Proof.
  unfold carried. rewrite in_flat_map. split.
  - intros (c & Hc & Hx). destruct (get c) as [ls|] eqn:E; [|destruct Hx].
    now exists c, ls.
  - intros (c & ls & Hc & E & Hx). exists c. now rewrite E.
Qed.

(** *** The container keyed on the layer *)

Lemma layer_flags (d : list Project.ProjectInfo) (type : EcosystemMap.TCategory)
  (k : string) (b : bool) :
  get_own (EcosystemMap.field (EcosystemMap.facets d) type) k = Some b ->
  b = false.
Proof.
  rewrite EcosystemLoadFacts.facets_field.
  destruct type;
    (apply flags_mark || apply flags_mark_allowed); discriminate.
Qed.

(** X4.  A load of the container keyed on the layer clears every filter:
    each key of each map carries the flag [false], no value is selected,
    every record passes, and the visible records are all the loaded records
    in name order. *)
Theorem load_shows_all_records (colors : list (list N))
  (s : EcosystemMap.State) (d : list Project.ProjectInfo) :
  let s' := EcosystemMap.load colors s d in
  (forall type k, In k (keys (EcosystemMap.field (EcosystemMap.filters s') type))
     -> get_own (EcosystemMap.field (EcosystemMap.filters s') type) k
        = Some false) /\
  (forall type,
     selected (EcosystemMap.field (EcosystemMap.filters s') type) = []) /\
  (forall p, EcosystemMap.passes (EcosystemMap.filters s') p = true) /\
  EcosystemMap.data s' = sort_projects true d /\
  Permutation (EcosystemMap.data s') d.
Proof.
  cbv zeta.
  change (EcosystemMap.filters (EcosystemMap.load colors s d))
    with (EcosystemMap.facets d).
  assert (Hsel : forall type,
            selected (EcosystemMap.field (EcosystemMap.facets d) type) = []).
  { intros type. apply selected_nil. apply layer_flags. }
  assert (Hpass : forall p,
            EcosystemMap.passes (EcosystemMap.facets d) p = true).
  { intros p. unfold EcosystemMap.passes.
    pose proof (Hsel EcosystemMap.Kcategory) as H1.
    pose proof (Hsel EcosystemMap.Klayer) as H2.
    pose proof (Hsel EcosystemMap.Ktarget_audience) as H3.
    pose proof (Hsel EcosystemMap.Kecosystem) as H4.
    cbn [EcosystemMap.field] in H1, H2, H3, H4.
    now rewrite H1, H2, H3, H4. }
  assert (Hdata : EcosystemMap.data (EcosystemMap.load colors s d)
                  = sort_projects true d).
  { unfold EcosystemMap.load, EcosystemMap.filterProjects,
      EcosystemMap.sortProjects. cbn [EcosystemMap.data
      EcosystemMap.filters EcosystemMap.ecosystemProjects].
    now apply filter_all. }
  split; [|split; [exact Hsel|split; [exact Hpass|split; [exact Hdata|]]]].
  - intros type k Hk.
    destruct (get_own (EcosystemMap.field (EcosystemMap.facets d) type) k)
      as [b|] eqn:G.
    + now rewrite (layer_flags d type k b G).
    + apply get_own_None in G. contradiction.
  - rewrite Hdata. apply SortFacts.sort_projects_perm.
Qed.

(** X5.  After a load, the keys of each filter map of the container keyed
    on the layer are exactly the non-empty values, other than "__proto__",
    that some record carries in the matching field (for the ecosystem: the
    allow-listed ones); so every chip of a filter block stands for at least
    one record. *)
Theorem facet_keys_are_carried_values (d : list Project.ProjectInfo)
  (type : EcosystemMap.TCategory) (k : string) :
  In k (keys (EcosystemMap.field (EcosystemMap.facets d) type)) <->
  (match type with
   | EcosystemMap.Kecosystem => allowed k
   | _ => enterable k
   end = true /\
   exists c ls, In c d /\ EcosystemMap.values c type = Some ls /\ In k ls).
Proof.
  rewrite EcosystemLoadFacts.facets_field.
  destruct type;
    (rewrite in_keys_mark || rewrite in_keys_mark_allowed);
    (split;
     [ intros [[]|(H & ls & [= <-] & HI)]; split; [exact H|];
       now apply in_carried in HI
     | intros (H & HI); right; split; [exact H|];
       eexists; split; [reflexivity|]; now apply in_carried ]).
Qed.

End FacetFacts.

(* ================================================================== *)
(** ** What a load of the status container leaves in its maps *)

Module StatusLoadFacts.

Import Js Common JsFacts CommonFacts Reference ColourFacts FacetFacts.
Import StatusMap StatusView.

Lemma tally_status_tally (fc : obj bool * obj count) (t : option string) :
  tally_status fc t = tally (fun _ => true) fc (option_map (fun x => [x]) t).
Proof. destruct t as [l|]; simpl; [now destruct (nonempty l) | reflexivity]. Qed.

Lemma collect_fields (fc : IFilters * Counts) (c : Project.ProjectInfo)
  (cat : TCategory) :
  (field (fst (collect fc c)) cat, counts_of (snd (collect fc c)) cat)
  = tally (allow cat) (field (fst fc) cat, counts_of (snd fc) cat)
      (values c cat).
Proof.
  destruct fc as [f n], cat; cbn [collect fst snd field counts_of allow values
    category status target_audience ecosystem
    n_category n_status n_target_audience n_ecosystem];
    try rewrite tally_status_tally;
    match goal with |- (fst ?p, snd ?p) = _ => now destruct p end.
Qed.

Lemma fold_tally (al : string -> bool)
  (get : Project.ProjectInfo -> option (list string))
  (d : list Project.ProjectInfo) (p : obj bool * obj count) :
  fold_left (fun p c => tally al p (get c)) d p
  = tally al p (Some (carried get d)).
Proof.
  revert p. induction d as [|c d IH]; intros p; simpl; [reflexivity|].
  rewrite IH. simpl. rewrite fold_left_app. now destruct (get c).
Qed.

(** The filter map and the count map of a dimension after a load: one pass
    over the values the records offer in that dimension. *)
Lemma facets_pair (d : list Project.ProjectInfo) (cat : TCategory) :
  (field (fst (facets d)) cat, counts_of (snd (facets d)) cat)
  = tally (allow cat) (empty, empty)
      (Some (carried (fun c => values c cat) d)).
Proof.
  rewrite <- fold_tally. unfold facets.
  assert (H : forall fc,
    (field (fst (fold_left collect d fc)) cat,
     counts_of (snd (fold_left collect d fc)) cat)
    = fold_left (fun p c => tally (allow cat) p (values c cat)) d
        (field (fst fc) cat, counts_of (snd fc) cat)).
  { induction d as [|c d IH]; intros fc; simpl; [reflexivity|].
    now rewrite IH, collect_fields. }
  rewrite H. now destruct cat.
Qed.

Lemma keys_insert_new_congr {V W : Type} (o : obj V) (n : obj W)
  (k : string) (v : V) (w : W) :
  keys o = keys n -> keys (insert_new o k v) = keys (insert_new n k w).
Proof.
  revert n. induction o as [|[k1 v1] o IH]; intros [|[k2 w2] n]; simpl;
    try discriminate; [reflexivity|].
  intros [= <- E]. destruct (precedes k1 k); simpl.
  - now rewrite (IH n E).
  - now rewrite E.
Qed.

Lemma keys_assign_congr {V W : Type} (o : obj V) (n : obj W)
  (k : string) (v : V) (w : W) :
  keys o = keys n -> keys (assign o k v) = keys (assign n k w).
Proof.
  intros E. unfold assign. rewrite !has_own_existsb, E.
  destruct (existsb (String.eqb k) (keys n)).
  - now rewrite !keys_update.
  - destruct (String.eqb k "__proto__"); [exact E|].
    now apply keys_insert_new_congr.
Qed.

Lemma keys_tally (al : string -> bool) (a : option (list string))
  (p : obj bool * obj count) :
  keys (fst p) = keys (snd p) ->
  keys (fst (tally al p a)) = keys (snd (tally al p a)).
Proof.
  destruct a as [ls|]; simpl; [|auto].
  revert p. induction ls as [|l ls IH]; intros p E; simpl; [exact E|].
  apply IH. destruct (nonempty l); [|exact E]. destruct (al l); [|exact E].
  simpl. unfold bump. now apply keys_assign_congr.
Qed.

Lemma flags_tally (al : string -> bool) (a : option (list string))
  (p : obj bool * obj count) :
  (forall k b, get_own (fst p) k = Some b -> b = false) ->
  forall k b, get_own (fst (tally al p a)) k = Some b -> b = false.
Proof.
  destruct a as [ls|]; simpl; [|auto].
  revert p. induction ls as [|l ls IH]; intros p Hp; simpl; [exact Hp|].
  apply IH. destruct (nonempty l); [|exact Hp]. destruct (al l); [|exact Hp].
  simpl. intros k b H. apply get_own_assign_cases in H. destruct H; eauto.
Qed.

(** The count of a value that is not a member inherited by every object. *)
Lemma count_tally (al : string -> bool) (ls : list string)
  (p : obj bool * obj count) (l : string) (c : N) :
  inherited l = false -> enterable l = true -> al l = true ->
  get_own (snd p) l = (if (c =? 0)%N then None else Some (Num c)) ->
  get_own (snd (tally al p (Some ls))) l
  = (let c' := (c + N.of_nat (count_occ string_dec ls l))%N in
     if (c' =? 0)%N then None else Some (Num c')).
Proof.
  intros Hi He Ha. apply enterable_spec in He. destruct He as [Hne Hp].
  assert (Hn : nonempty l = true) by now destruct l.
  simpl. revert p c. induction ls as [|x ls IH]; intros p c Hc; simpl.
  - now rewrite N.add_0_r.
  - destruct (string_dec x l) as [->|Hx].
    + rewrite Hn, Ha.
      rewrite (IH _ (c + 1)%N).
      * cbv zeta. now replace (c + 1 + N.of_nat (count_occ string_dec ls l))%N
          with (c + N.of_nat (S (count_occ string_dec ls l)))%N by lia.
      * cbn [snd]. unfold bump. rewrite Hc, Hi.
        rewrite get_own_assign_same by exact Hp.
        assert (E1 : ((c + 1 =? 0) = false)%N) by (apply N.eqb_neq; lia).
        rewrite E1.
        destruct (c =? 0)%N eqn:E0; [|reflexivity].
        apply N.eqb_eq in E0. now subst c.
    + apply IH.
      destruct (nonempty x); [|exact Hc]. destruct (al x); [|exact Hc].
      cbn [snd]. unfold bump. rewrite get_own_assign_other; [exact Hc|].
      congruence.
Qed.

Lemma status_pair_fst (d : list Project.ProjectInfo) (cat : TCategory) :
  field (fst (facets d)) cat
  = fst (tally (allow cat) (empty, empty)
           (Some (carried (fun c => values c cat) d))).
Proof. now rewrite <- (facets_pair d cat). Qed.

Lemma status_flags (d : list Project.ProjectInfo) (cat : TCategory)
  (k : string) (b : bool) :
  get_own (field (fst (facets d)) cat) k = Some b -> b = false.
Proof. rewrite status_pair_fst. apply flags_tally. discriminate. Qed.

Lemma status_facets_keys (d : list Project.ProjectInfo) (cat : TCategory)
  (k : string) :
  In k (keys (field (fst (facets d)) cat)) <->
  enterable k = true /\ allow cat k = true /\
  exists c ls, In c d /\ values c cat = Some ls /\ In k ls.
Proof.
  rewrite status_pair_fst.
  destruct (StatusMapFacts.in_keys_tally (allow cat)
              (Some (carried (fun c => values c cat) d))
              (empty, empty) k) as [H _].
  cbv zeta in H. rewrite H. cbn [fst keys map empty]. split.
  - intros [[]|(H1 & H2 & ls & [= <-] & HI)].
    apply in_carried in HI. repeat split; assumption.
  - intros (H1 & H2 & HI). right. repeat split; try assumption.
    eexists. split; [reflexivity|]. now apply in_carried.
Qed.

(** X6.  After a load of the status container, in every dimension the
    count map has the keys of the filter map, in the same order, and these
    are exactly the non-empty values other than "__proto__" that some record
    offers there (allow-listed, for the ecosystem); every flag is [false].
    So each chip has a count entry and each count entry a chip. *)
Theorem counts_follow_filters (d : list Project.ProjectInfo)
  (cat : TCategory) :
  keys (counts_of (snd (facets d)) cat) = keys (field (fst (facets d)) cat) /\
  (forall k,
     In k (keys (field (fst (facets d)) cat)) <->
     enterable k = true /\ allow cat k = true /\
     exists c ls, In c d /\ values c cat = Some ls /\ In k ls) /\
  (forall k b, get_own (field (fst (facets d)) cat) k = Some b -> b = false).
Proof.
  pose proof (facets_pair d cat) as E.
  assert (E1 : field (fst (facets d)) cat
               = fst (tally (allow cat) (empty, empty)
                        (Some (carried (fun c => values c cat) d))))
    by now rewrite <- E.
  assert (E2 : counts_of (snd (facets d)) cat
               = snd (tally (allow cat) (empty, empty)
                        (Some (carried (fun c => values c cat) d))))
    by now rewrite <- E.
  split; [|split].
  - rewrite E1, E2. symmetry. now apply keys_tally.
  - apply status_facets_keys.
  - apply status_flags.
Qed.

(** X7.  For a value [l] that is non-empty, passes the dimension's test and
    is not the name of a member inherited from [Object.prototype], the
    count shown beside its chip is the number of times [l] occurs in the
    values the records offer in that dimension (a record listing [l] twice
    counts twice); a value that never occurs has no count. *)
Theorem count_is_number_of_occurrences (d : list Project.ProjectInfo)
  (cat : TCategory) (l : string) :
  inherited l = false -> enterable l = true -> allow cat l = true ->
  let c := count_occ string_dec (carried (fun p => values p cat) d) l in
  get_own (counts_of (snd (facets d)) cat) l
  = (if Nat.eqb c 0 then None else Some (Num (N.of_nat c))).
Proof.
  intros Hi He Ha c.
  assert (E : counts_of (snd (facets d)) cat
              = snd (tally (allow cat) (empty, empty)
                       (Some (carried (fun p => values p cat) d))))
    by now rewrite <- (facets_pair d cat).
  rewrite E.
  rewrite (count_tally (allow cat) _ (empty, empty) l 0%N Hi He Ha eq_refl).
  cbv zeta. fold c. rewrite N.add_0_l.
  destruct (Nat.eqb_spec c 0) as [->|Hc]; [reflexivity|].
  destruct (N.eqb_spec (N.of_nat c) 0); [lia | reflexivity].
Qed.

Lemma count_is_number_of_occurrences_witness :
  get_own
    (n_ecosystem
       (snd (facets [Sample.acala; Sample.moonbeam; Sample.talisman])))
    "Polkadot" = Some (Num 2).
Proof.
  apply (count_is_number_of_occurrences
           [Sample.acala; Sample.moonbeam; Sample.talisman]
           Kecosystem "Polkadot"); reflexivity.
Defined.

(** X8.  A load of the status container selects nothing, so the visible
    records are the loaded records in name order that match the query kept
    in the state; when that query normalises to the empty text, all of
    them. *)
Theorem status_load_shows_matching_records (lower : string -> string)
  (colors : list (list N)) (s : State) (d : list Project.ProjectInfo) :
  let s' := load lower colors s d in
  (forall cat, selected (field (filters s') cat) = []) /\
  data s' = filter (matches_search lower (search_of lower (query s)))
              (sort_projects true d) /\
  (search_of lower (query s) = ""%string -> data s' = sort_projects true d) /\
  query s' = query s.
Proof.
  cbv zeta.
  destruct (StatusMapFacts.load_facets lower colors s d) as (Hf & _ & _).
  assert (Hsel : forall cat, selected (field (fst (facets d)) cat) = []).
  { intros cat. apply selected_nil. apply status_flags. }
  assert (Hdata : data (load lower colors s d)
                  = filter (matches_search lower (search_of lower (query s)))
                      (sort_projects true d)).
  { unfold load in *. destruct (facets d) as [f n].
    unfold filterProjects. cbn [data filters ecosystemProjects query].
    apply filter_ext. intros p. unfold passes.
    pose proof (Hsel Kcategory) as H1. pose proof (Hsel Kstatus) as H2.
    pose proof (Hsel Ktarget_audience) as H3.
    pose proof (Hsel Kecosystem) as H4.
    cbn [field fst] in H1, H2, H3, H4. now rewrite H1, H2, H3, H4. }
  split; [now rewrite Hf|]. split; [exact Hdata|]. split.
  - intros E. rewrite Hdata, E. apply filter_all. reflexivity.
  - unfold load. now destruct (facets d).
Qed.

Lemma status_load_shows_matching_records_witness :
  data (load Sample.lower Sample.palette initial [Sample.moonbeam; Sample.acala])
    = sort_projects true [Sample.moonbeam; Sample.acala].
Proof.
  apply (proj1 (proj2 (proj2
           (status_load_shows_matching_records Sample.lower Sample.palette
              initial
              [Sample.moonbeam; Sample.acala])))).
  reflexivity.
Defined.

End StatusLoadFacts.

(* ================================================================== *)
(** ** The colour map as a whole *)

Module PaletteFacts.

Import Js Common JsFacts CommonFacts Reference ColourFacts FacetFacts.
Import EcosystemMap.

Lemma in_keys_paint (colors : list (list N)) (ks : list string) (idx : nat)
  (c : obj string) (k : string) :
  In k (keys (paint colors ks idx c)) <->
  In k (keys c) \/ (In k ks /\ k <> "__proto__").
Proof.
  revert idx c. induction ks as [|k0 ks IH]; intros idx c; simpl.
  - tauto.
  - rewrite IH, in_keys_assign. split.
    + intros [[H|[-> H]]|[H1 H2]]; auto.
    + intros [H|[[<-|H1] H2]]; auto.
Qed.

Lemma get_own_paint_origin (colors : list (list N)) (ks : list string)
  (idx : nat) (c : obj string) (k v : string) :
  get_own (paint colors ks idx c) k = Some v ->
  get_own c k = Some v \/
  exists i, nth_error ks i = Some k /\ v = color_at colors (idx + i).
Proof.
  revert idx c. induction ks as [|k0 ks IH]; intros idx c H; simpl in H.
  - now left.
  - destruct (IH _ _ H) as [H1|(i & Hi & ->)].
    + destruct (string_dec k k0) as [->|Hne].
      * apply get_own_assign_cases in H1. destruct H1 as [->|H1]; [|now left].
        right. exists 0. now rewrite Nat.add_0_r.
      * rewrite get_own_assign_other in H1 by exact Hne. now left.
    + right. exists (S i). split; [exact Hi | f_equal; lia].
Qed.

Lemma color_at_mod (colors : list (list N)) (i j : nat) :
  i mod length colors = j mod length colors ->
  color_at colors i = color_at colors j.
Proof.
  unfold color_at. destruct colors as [|e colors']; [reflexivity|].
  cbn [length]. now intros ->.
Qed.

(** X9.  The colour map of a load has a colour for exactly the values of
    the four filter maps: every chip of a filter block is coloured, and a
    value that is no facet value (an ecosystem outside the allow-list, shown
    on a card) has none.  Each colour is the one handed out at some
    traversal index of its value, and is a palette entry joined by commas,
    or "33,150,243" when the palette is empty. *)
Theorem colour_map_covers_facets (colors : list (list N))
  (d : list Project.ProjectInfo) (k : string) :
  let f := facets d in
  (In k (keys (colours colors f)) <-> In k (traversal f)) /\
  (forall v, get_own (colours colors f) k = Some v ->
     exists i, nth_error (traversal f) i = Some k /\
               v = color_at colors i) /\
  (forall i, (colors = [] /\ color_at colors i = "33,150,243") \/
             (exists e, In e colors /\ color_at colors i = join_numbers e)).
Proof.
  cbv zeta. split; [|split].
  - unfold colours. rewrite in_keys_paint. cbn [keys map empty]. split.
    + intros [[]|[H _]]. exact H.
    + intros H. right. split; [exact H|].
      now apply (EcosystemLoadFacts.traversal_enterable d).
  - intros v H. unfold colours in H.
    apply get_own_paint_origin in H. destruct H as [H|H]; [discriminate H|].
    exact H.
  - intros i. destruct colors as [|e0 colors'] eqn:E; [now left|].
    right. destruct (color_at_entry (e0 :: colors') i) as (e & He & Hc);
      [discriminate|].
    exists e. split; [|exact Hc]. eapply nth_error_In. exact He.
Qed.

(** X10.  The palette wraps around: two facet values whose last traversal
    indices are congruent modulo the palette size receive the same colour,
    so with more values than palette entries colours repeat. *)
Theorem colours_wrap_around (colors : list (list N))
  (d : list Project.ProjectInfo) (i j : nat) (k1 k2 : string) :
  let f := facets d in
  nth_error (traversal f) i = Some k1 ->
  (forall i', i < i' -> nth_error (traversal f) i' <> Some k1) ->
  nth_error (traversal f) j = Some k2 ->
  (forall j', j < j' -> nth_error (traversal f) j' <> Some k2) ->
  i mod length colors = j mod length colors ->
  get_own (colours colors f) k1 = get_own (colours colors f) k2 /\
  get_own (colours colors f) k1 = Some (color_at colors i).
Proof.
  intros f Hi Li Hj Lj Hmod. unfold colours.
  rewrite (get_own_paint colors (traversal f) 0 empty i k1 Hi Li),
    (get_own_paint colors (traversal f) 0 empty j k2 Hj Lj).
  - cbn [Nat.add]. split; [|reflexivity].
    now rewrite (color_at_mod colors i j Hmod).
  - apply (EcosystemLoadFacts.traversal_enterable d).
    eapply nth_error_In. exact Hj.
  - apply (EcosystemLoadFacts.traversal_enterable d).
    eapply nth_error_In. exact Hi.
Qed.

Lemma colours_wrap_around_witness :
  let f := facets [Sample.talisman; Sample.subscan] in
  get_own (colours Sample.palette f) "Wallet"
  = get_own (colours Sample.palette f) "Dev teams".
Proof.
  intros f.
  assert (E : traversal f
              = ["Wallet"; "API"; "Layer-3"; "Dev teams"; "Polkadot"])
    by reflexivity.
  apply (colours_wrap_around Sample.palette
           [Sample.talisman; Sample.subscan] 0 3 "Wallet" "Dev teams").
  - reflexivity.
  - fold f. rewrite E. intros i' Hi'.
    do 5 (destruct i' as [|i']; [lia || discriminate|]).
    destruct i'; discriminate.
  - reflexivity.
  - fold f. rewrite E. intros j' Hj'.
    do 5 (destruct j' as [|j']; [lia || discriminate|]).
    destruct j'; discriminate.
  - reflexivity.
Defined.

End PaletteFacts.

(* ================================================================== *)
(** ** Toggles and chips *)

Module ToggleFacts.

Import Js Common JsFacts CommonFacts EcosystemMap EcosystemMapFacts.

Lemma get_own_define_same {V : Type} (o : obj V) (k : string) (v : V) :
  get_own (define o k v) k = Some v.
Proof.
  unfold define. destruct (has_own o k) eqn:E.
  - now apply get_own_update_same.
  - apply get_own_insert_new_same. unfold has_own in E.
    now destruct (get_own o k).
Qed.

Lemma get_own_define_other {V : Type} (o : obj V) (k k' : string) (v : V) :
  k' <> k -> get_own (define o k v) k' = get_own o k'.
Proof.
  intros H. unfold define. destruct (has_own o k).
  - now apply get_own_update_other.
  - now apply get_own_insert_new_other.
Qed.

Lemma in_keys_define {V : Type} (o : obj V) (k x : string) (v : V) :
  In x (keys (define o k v)) <-> x = k \/ In x (keys o).
Proof.
  unfold define. destruct (has_own o k) eqn:E.
  - rewrite keys_update. apply has_own_true in E.
    split; [tauto | intros [->|H]; assumption].
  - apply in_keys_insert_new.
Qed.

Lemma update_swap {V : Type} (o : obj V) (k1 k2 : string) (v1 v2 : V) :
  k1 <> k2 ->
  update (update o k1 v1) k2 v2 = update (update o k2 v2) k1 v1.
Proof.
  intros Hne. induction o as [|[k w] o IH]; simpl; [reflexivity|].
  destruct (String.eqb k k1) eqn:E1, (String.eqb k k2) eqn:E2; simpl;
    rewrite ?E1, ?E2; try reflexivity.
  - apply String.eqb_eq in E1, E2. congruence.
  - now rewrite IH.
Qed.

(** X11.  A click on a chip flips that chip and nothing else, whether or
    not its label is a key of the map: after the toggle the chip's active
    state is the negation of what it was, every other chip of every
    dimension keeps its state, and no key is ever removed. *)
Theorem toggle_flips_one_chip (f : IFilters) (type : TCategory)
  (k : string) :
  wf (field f type) ->
  let f' := toggleFilterByCategory f type k in
  ChipFilterBlock.active (field f' type) k
    = negb (ChipFilterBlock.active (field f type) k) /\
  (forall k', k' <> k ->
     ChipFilterBlock.active (field f' type) k'
       = ChipFilterBlock.active (field f type) k') /\
  (forall t k', t <> type ->
     ChipFilterBlock.active (field f' t) k'
       = ChipFilterBlock.active (field f t) k') /\
  (forall t k', In k' (keys (field f t)) -> In k' (keys (field f' t))).
Proof.
  intros Hwf f'.
  assert (E : field f' type
              = define (field f type) k (negb (truthy_get (field f type) k))).
  { unfold f', toggleFilterByCategory.
    now rewrite field_with_field, (spread_wf _ Hwf). }
  assert (Eo : forall t, t <> type -> field f' t = field f t).
  { intros t Ht. unfold f', toggleFilterByCategory.
    now apply field_with_field_other. }
  unfold ChipFilterBlock.active. split; [|split; [|split]].
  - rewrite E. unfold truthy_get at 1. now rewrite get_own_define_same.
  - intros k' Hk'. rewrite E. unfold truthy_get.
    now rewrite get_own_define_other.
  - intros t k' Ht. now rewrite (Eo t Ht).
  - intros t k' Hk'.
    assert (Hdec : t = type \/ t <> type)
      by (destruct t, type; (now left) || (right; discriminate)).
    destruct Hdec as [->|Ht].
    + rewrite E. apply in_keys_define. now right.
    + now rewrite (Eo t Ht).
Qed.

Lemma toggle_flips_one_chip_witness :
  let f := facets [Sample.acala; Sample.moonbeam] in
  ChipFilterBlock.active
    (ecosystem (toggleFilterByCategory f Kecosystem "Ethereum")) "Ethereum"
  = negb (ChipFilterBlock.active (ecosystem f) "Ethereum").
Proof.
  intros f.
  apply (toggle_flips_one_chip f Kecosystem "Ethereum"). reflexivity.
Defined.

(** X12.  The order of two clicks does not matter for the filter state when
    the chips belong to different dimensions, or to the same dimension and
    both labels are keys of its map. *)
Theorem toggles_commute (f : IFilters) (t1 t2 : TCategory)
  (k1 k2 : string) :
  (t1 <> t2 ->
   toggleFilterByCategory (toggleFilterByCategory f t1 k1) t2 k2
   = toggleFilterByCategory (toggleFilterByCategory f t2 k2) t1 k1) /\
  (t1 = t2 -> wf (field f t1) ->
   has_own (field f t1) k1 = true -> has_own (field f t1) k2 = true ->
   toggleFilterByCategory (toggleFilterByCategory f t1 k1) t2 k2
   = toggleFilterByCategory (toggleFilterByCategory f t2 k2) t1 k1).
Proof.
  split.
  - intros Hne. unfold toggleFilterByCategory.
    destruct t1, t2; try congruence; reflexivity.
  - intros <- Hwf H1 H2.
    destruct (string_dec k1 k2) as [->|Hne]; [reflexivity|].
    destruct (get_own (field f t1) k1) as [b1|] eqn:G1;
      [|unfold has_own in H1; now rewrite G1 in H1].
    destruct (get_own (field f t1) k2) as [b2|] eqn:G2;
      [|unfold has_own in H2; now rewrite G2 in H2].
    unfold toggleFilterByCategory.
    rewrite !field_with_field, !with_field_twice.
    rewrite (flip_present _ k1 b1 Hwf G1), (flip_present _ k2 b2 Hwf G2).
    rewrite (flip_present (update (field f t1) k1 (negb b1)) k2 b2);
      [|now apply wf_update
       |rewrite get_own_update_other; [exact G2 | congruence]].
    rewrite (flip_present (update (field f t1) k2 (negb b2)) k1 b1);
      [|now apply wf_update
       |rewrite get_own_update_other; [exact G1 | congruence]].
    now rewrite (update_swap _ k1 k2) by exact Hne.
Qed.

Lemma toggles_commute_witness :
  let f := facets [Sample.acala; Sample.moonbeam] in
  toggleFilterByCategory (toggleFilterByCategory f Kcategory "DeFi")
    Kcategory "EVM"
  = toggleFilterByCategory (toggleFilterByCategory f Kcategory "EVM")
      Kcategory "DeFi".
Proof.
  intros f.
  apply (proj2 (toggles_commute f Kcategory Kcategory "DeFi" "EVM"));
    reflexivity.
Defined.

End ToggleFacts.

(* ================================================================== *)
(** ** The order of the chips on the page *)

Module DisplayFacts.

Import Js Common JsFacts CommonFacts Insertion OrderFacts.

Lemma ordered_NoDup (ks : list string) : Js.ordered ks = true -> NoDup ks.
Proof.
  induction ks as [|k ks IH]; intros H; [constructor|].
  apply ordered_cons in H. destruct H as (_ & Hk & Hks).
  constructor; auto.
Qed.

Lemma sort_perm (l : list string) : Permutation (ChipFilterBlock.sort l) l.
Proof. rewrite sort_isort. apply isort_perm. Qed.

Lemma sort_sorted (l : list string) : alphabetic (ChipFilterBlock.sort l).
Proof.
  unfold alphabetic. rewrite sort_isort.
  apply (isort_sorted Js.le le_total_false le_trans).
Qed.

Lemma filter_split {A : Type} (p : A -> bool) (l : list A) :
  Permutation (filter p l ++ filter (fun x => negb (p x)) l) l.
Proof.
  induction l as [|x l IH]; simpl; [reflexivity|].
  destruct (p x); simpl.
  - now constructor.
  - rewrite <- Permutation_middle. now constructor.
Qed.

Lemma includes_item_In (order : list string) (x : string) :
  ChipFilterBlock.includes_item order x = true <-> In x order.
Proof.
  unfold ChipFilterBlock.includes_item. rewrite existsb_exists. split.
  - intros (y & Hy & E). apply String.eqb_eq in E. now subst.
  - intros H. exists x. split; [exact H | apply String.eqb_refl].
Qed.

(** The chips of a block with a priority list. *)
Lemma ordered_perm (order : list string) (filters : obj bool) :
  wf filters -> NoDup order ->
  (forall x, In x order -> inherited x = false) ->
  Permutation (ChipFilterBlock.ordered (Some order) filters) (keys filters).
Proof.
  intros Hwf Hnd Hinh. unfold ChipFilterBlock.ordered.
  etransitivity;
    [|apply (filter_split (ChipFilterBlock.includes_item order)
               (keys filters))].
  apply Permutation_app; [|apply sort_perm].
  apply NoDup_Permutation.
  - now apply NoDup_filter.
  - apply NoDup_filter. now apply ordered_NoDup.
  - intros x. rewrite !filter_In, includes_item_In.
    unfold ChipFilterBlock.defined. split.
    + intros [Hx Hd]. split; [|exact Hx].
      rewrite (Hinh x Hx), orb_false_r in Hd. now apply has_own_true.
    + intros [Hx Ho]. split; [exact Ho|].
      apply has_own_true in Hx. now rewrite Hx.
Qed.

(** X13.  A filter block shows one chip for each key of its map, no more
    and no fewer.  Without a priority list the chips are in the ascending
    order of [sort()] (by UTF-16 code unit); with one (of distinct names,
    none inherited by every object) the priority names that are keys come
    first, in the order of the list, and the other keys follow in that
    ascending order. *)
Theorem chips_in_display_order (filters : obj bool) :
  wf filters ->
  (Permutation (ChipFilterBlock.ordered None filters) (keys filters) /\
   alphabetic (ChipFilterBlock.ordered None filters)) /\
  (forall order,
     NoDup order -> (forall x, In x order -> inherited x = false) ->
     Permutation (ChipFilterBlock.ordered (Some order) filters)
       (keys filters) /\
     exists rest,
       ChipFilterBlock.ordered (Some order) filters
         = filter (has_own filters) order ++ rest /\
       alphabetic rest /\
       (forall x, In x rest <-> In x (keys filters) /\ ~ In x order)).
Proof.
  intros Hwf. split.
  - split; [apply sort_perm | apply sort_sorted].
  - intros order Hnd Hinh. split; [now apply ordered_perm|].
    exists (ChipFilterBlock.sort
              (filter (fun item =>
                         negb (ChipFilterBlock.includes_item order item))
                 (keys filters))).
    split; [|split].
    + unfold ChipFilterBlock.ordered. f_equal.
      apply filter_ext_in. intros x Hx. unfold ChipFilterBlock.defined.
      now rewrite (Hinh x Hx), orb_false_r.
    + apply sort_sorted.
    + intros x. split.
      * intros H. apply (Permutation_in _ (sort_perm _)) in H.
        apply filter_In in H. destruct H as [H1 H2]. split; [exact H1|].
        rewrite <- includes_item_In. now destruct
          (ChipFilterBlock.includes_item order x).
      * intros [H1 H2].
        apply (Permutation_in _ (Permutation_sym (sort_perm _))).
        apply filter_In. split; [exact H1|].
        destruct (ChipFilterBlock.includes_item order x) eqn:E;
          [|reflexivity].
        apply includes_item_In in E. contradiction.
Qed.

(** The status block of a catalogue with five readiness values: the three
    of the priority list first, in the order of that list, then Archived
    and Sunset. *)
Lemma chips_in_display_order_witness :
  Permutation
    (ChipFilterBlock.ordered (Groups.block_order StatusMap.Kstatus)
       (StatusMap.status (fst (StatusMap.facets Sample.stages))))
    ["In research"; "Sunset"; "Connected to Relay chain"; "Archived";
     "In production"].
Proof.
  apply (proj2 (chips_in_display_order
                  (StatusMap.status (fst (StatusMap.facets Sample.stages)))
                  eq_refl) Groups.statusOrder).
  - apply ordered_NoDup. reflexivity.
  - intros x Hx. simpl in Hx.
    repeat (destruct Hx as [<-|Hx]; [reflexivity|]). destruct Hx.
Defined.

Example status_chips_of_stages :
  ChipFilterBlock.ordered (Groups.block_order StatusMap.Kstatus)
    (StatusMap.status (fst (StatusMap.facets Sample.stages)))
  = ["Connected to Relay chain"; "In production"; "In research";
     "Archived"; "Sunset"].
Proof. vm_compute. reflexivity. Qed.

(** All the names that belong to some category group. *)
Lemma grouped_items (gs : list (string * list string)) (x : string) :
  existsb (fun g => ChipFilterBlock.includes_item (snd g) x) gs
  = ChipFilterBlock.includes_item (flat_map snd gs) x.
Proof.
  unfold ChipFilterBlock.includes_item.
  induction gs as [|g gs IH]; simpl; [reflexivity|].
  now rewrite existsb_app, IH.
Qed.

Lemma shown_items (P : string -> bool) (gs : list (string * list string)) :
  flat_map snd
    (filter (fun g => match snd g with [] => false | _ :: _ => true end)
       (map (fun g => (fst g, filter P (snd g))) gs))
  = filter P (flat_map snd gs).
Proof.
  induction gs as [|g gs IH]; simpl; [reflexivity|].
  rewrite filter_app, <- IH.
  destruct (filter P (snd g)) eqn:E; simpl; reflexivity.
Qed.

Lemma category_chips_ordered (cat : obj bool) :
  Groups.category_chips cat
  = ChipFilterBlock.ordered (Some (flat_map snd Groups.categoryGroups)) cat.
Proof.
  unfold Groups.category_chips, Groups.shown_groups, Groups.other_group,
    ChipFilterBlock.ordered.
  rewrite shown_items. f_equal.
  assert (Hext : forall l,
    filter Groups.ungrouped l
    = filter (fun item =>
                negb (ChipFilterBlock.includes_item
                        (flat_map snd Groups.categoryGroups) item)) l).
  { intros l. apply filter_ext. intros x. unfold Groups.ungrouped.
    now rewrite grouped_items. }
  rewrite <- Hext.
  destruct (existsb Groups.ungrouped (keys cat)) eqn:E; [reflexivity|].
  assert (Hnil : filter Groups.ungrouped (keys cat) = []).
  { induction (keys cat) as [|k ks IH]; simpl in *; [reflexivity|].
    apply orb_false_iff in E. destruct E as [E1 E2].
    rewrite E1. now apply IH. }
  now rewrite Hnil.
Qed.

(** X14.  The grouped category panel shows every key of the category map
    exactly once: under its group when the name belongs to one of the four
    groups, under "Other" otherwise.  The group "Other" appears iff some key
    belongs to no group, and a group is shown only with at least one item,
    each of them a key of the map. *)
Theorem category_groups_partition (cat : obj bool) :
  wf cat ->
  Permutation (Groups.category_chips cat) (keys cat) /\
  (Groups.other_group cat = None <->
   forall k, In k (keys cat) -> Groups.ungrouped k = false) /\
  (forall o, Groups.other_group cat = Some o ->
     forall k, In k o <-> In k (keys cat) /\ Groups.ungrouped k = true) /\
  (forall g, In g (Groups.shown_groups cat) ->
     snd g <> [] /\ forall x, In x (snd g) -> In x (keys cat)).
Proof.
  intros Hwf.
  assert (Hinh : forall x, In x (flat_map snd Groups.categoryGroups) ->
                           inherited x = false).
  { assert (H : forallb (fun x => negb (inherited x))
                  (flat_map snd Groups.categoryGroups) = true)
      by reflexivity.
    rewrite forallb_forall in H. intros x Hx. specialize (H x Hx).
    now destruct (inherited x). }
  split; [|split; [|split]].
  - rewrite category_chips_ordered. apply ordered_perm; [exact Hwf| |].
    + apply ordered_NoDup. reflexivity.
    + exact Hinh.
  - unfold Groups.other_group.
    destruct (existsb Groups.ungrouped (keys cat)) eqn:E.
    + split; [discriminate|]. intros H.
      apply existsb_exists in E. destruct E as (k & Hk & Eu).
      rewrite (H k Hk) in Eu. discriminate.
    + split; [|reflexivity]. intros _ k Hk.
      destruct (Groups.ungrouped k) eqn:Eu; [|reflexivity].
      assert (existsb Groups.ungrouped (keys cat) = true); [|congruence].
      apply existsb_exists. now exists k.
  - unfold Groups.other_group. intros o.
    destruct (existsb Groups.ungrouped (keys cat)); [|discriminate].
    intros [= <-] k. rewrite <- filter_In. split.
    + apply (Permutation_in _ (sort_perm _)).
    + apply (Permutation_in _ (Permutation_sym (sort_perm _))).
  - intros g Hg. unfold Groups.shown_groups in Hg.
    apply filter_In in Hg. destruct Hg as [Hg Hne].
    split; [now destruct (snd g)|].
    apply in_map_iff in Hg. destruct Hg as (g0 & <- & Hg0).
    intros x Hx. cbn [snd] in Hx. apply filter_In in Hx.
    destruct Hx as [Hx Hd]. unfold ChipFilterBlock.defined in Hd.
    rewrite (Hinh x) in Hd.
    * rewrite orb_false_r in Hd. now apply has_own_true.
    * apply in_flat_map. now exists g0.
Qed.

Lemma category_groups_partition_witness :
  Permutation
    (Groups.category_chips
       (StatusMap.category
          (fst (StatusMap.facets
                  [Sample.talisman; Sample.subscan; Sample.acala]))))
    ["Wallet"; "API"; "DeFi"].
Proof.
  apply (category_groups_partition
           (StatusMap.category
              (fst (StatusMap.facets
                      [Sample.talisman; Sample.subscan; Sample.acala])))).
  reflexivity.
Defined.

End DisplayFacts.

(* ================================================================== *)
(** ** Labels of a card *)

Module LabelFacts.

Import Js Common Card CardFacts.

(** X15.  The readiness label is "❔ Unknown" for a missing or empty
    technology readiness and otherwise the readiness text itself behind one
    of five icons or none: the text is never altered and the label is never
    empty.  Each status of the status order list gets an icon. *)
Theorem readiness_label_keeps_text (t : string) :
  Readiness.getReadinessStatus None = "❔ Unknown" /\
  Readiness.getReadinessStatus (Some "") = "❔ Unknown" /\
  (t <> ""%string ->
   exists icon, In icon Readiness.icons /\
     Readiness.getReadinessStatus (Some t) = (icon ++ t)%string) /\
  Readiness.getReadinessStatus (Some t) <> ""%string /\
  (In t Groups.statusOrder ->
   Readiness.getReadinessStatus (Some t) <> t).
Proof.
  split; [reflexivity|]. split; [reflexivity|].
  assert (Hicon : t <> ""%string ->
    exists icon, In icon Readiness.icons /\
      Readiness.getReadinessStatus (Some t) = (icon ++ t)%string).
  { intros Hne. unfold Readiness.getReadinessStatus.
    assert (E : nonempty t = true) by now destruct t.
    rewrite E. cbn [negb].
    destruct (_ || _ || _)%bool;
      [eexists; split; [|reflexivity]; simpl; tauto|].
    repeat (destruct (String.eqb t _);
            [eexists; split; [|reflexivity]; simpl; tauto|]).
    exists ""%string. split; [simpl; tauto | reflexivity]. }
  split; [exact Hicon|]. split.
  - destruct t as [|c t']; [discriminate|].
    destruct (Hicon ltac:(discriminate)) as (icon & _ & ->).
    now destruct icon.
  - intros H. simpl in H.
    repeat (destruct H as [<-|H]; [discriminate|]). destruct H.
Qed.

Lemma readiness_label_keeps_text_witness :
  exists icon, In icon Readiness.icons /\
    Readiness.getReadinessStatus (Some "In development")
    = (icon ++ "In development")%string.
Proof.
  apply (readiness_label_keeps_text "In development"). discriminate.
Defined.

(** X16.  A fresher push never reads staler: for two valid non-zero
    timestamps, the later one is classified [active] whenever the earlier
    one is, and the earlier one [inactive] whenever the later one is; a
    timestamp in the future of the evaluation instant is [active]; and a
    later evaluation instant never turns a label back to [active]. *)
Theorem fresher_is_never_staler (now now' t1 t2 : Z) :
  t1 <> 0%Z -> t2 <> 0%Z ->
  (Z.abs (t1 * 1000) <= MAX_TIME)%Z -> (Z.abs (t2 * 1000) <= MAX_TIME)%Z ->
  (t1 <= t2)%Z -> (now <= now')%Z ->
  (getActivityIndicator now (Some t1) = ACTIVITY_INDICATORS active ->
   getActivityIndicator now (Some t2) = ACTIVITY_INDICATORS active) /\
  (getActivityIndicator now (Some t2) = ACTIVITY_INDICATORS inactive ->
   getActivityIndicator now (Some t1) = ACTIVITY_INDICATORS inactive) /\
  ((now <= t2 * 1000)%Z ->
   getActivityIndicator now (Some t2) = ACTIVITY_INDICATORS active) /\
  (getActivityIndicator now' (Some t1) = ACTIVITY_INDICATORS active ->
   getActivityIndicator now (Some t1) = ACTIVITY_INDICATORS active).
Proof.
  intros H1 H2 R1 R2 Ht Hn.
  rewrite !(getActivityIndicator_valid _ t1 H1 R1),
    !(getActivityIndicator_valid _ t2 H2 R2). cbv zeta. unfold diffDays.
  assert (Hpos : (0 < MS_PER_DAY)%Z) by reflexivity.
  assert (D12 : ((now - t2 * 1000) / MS_PER_DAY
                 <= (now - t1 * 1000) / MS_PER_DAY)%Z)
    by (apply Z.div_le_mono; lia).
  assert (Dn : ((now - t1 * 1000) / MS_PER_DAY
                <= (now' - t1 * 1000) / MS_PER_DAY)%Z)
    by (apply Z.div_le_mono; lia).
  assert (Dfut : (now <= t2 * 1000 ->
                  (now - t2 * 1000) / MS_PER_DAY <= 0)%Z).
  { intros Hf. apply Z.div_le_upper_bound; lia. }
  repeat split; intros Hx;
    repeat match goal with
      | |- context [Z.leb ?a ?b] => destruct (Z.leb_spec a b)
      | H : context [Z.leb ?a ?b] |- _ => destruct (Z.leb_spec a b)
      end;
    try reflexivity; try lia;
    try (apply labels_distinct in Hx; discriminate Hx).
Qed.

Lemma fresher_is_never_staler_witness :
  getActivityIndicator Sample.now (Some 1699000000%Z)
    = ACTIVITY_INDICATORS active.
Proof.
  apply (proj1 (fresher_is_never_staler Sample.now Sample.now
                  1698000000 1699000000
                  ltac:(discriminate) ltac:(discriminate)
                  ltac:(vm_compute; discriminate)
                  ltac:(vm_compute; discriminate)
                  ltac:(vm_compute; discriminate)
                  ltac:(vm_compute; discriminate))).
  reflexivity.
Defined.

Lemma Card_empty now card :
  samples card = [] ->
  fst (Card.Card now card) = ACTIVITY_INDICATORS default /\
  samples (snd (Card.Card now card)) = [].
Proof.
  intros E. split; [|now rewrite Card_samples, E].
  unfold samples, Card.Card, pop_github_pushed_at in *.
  destruct (Project.metrics card) as [m|]; [|reflexivity].
  destruct (Project.github_pushed_at m) as [a|]; [|reflexivity].
  now subst a.
Qed.

(** X17.  Successive renderings of one card walk its samples backwards:
    the [i]-th rendering is labelled from the [i]-th sample counted from
    the end, and once the samples are used up every further rendering reads
    "Unknown". *)
Theorem renderings_walk_back (now : Z) (n : nat)
  (card : Project.ProjectInfo) :
  fst (render now n card)
  = map (fun s => getActivityIndicator now (Some (Project.value s)))
      (firstn n (rev (samples card)))
    ++ repeat (ACTIVITY_INDICATORS default) (n - length (samples card)).
Proof.
  revert card. induction n as [|n IH]; intros card; [reflexivity|].
  cbn [render].
  destruct (samples card) as [|s l] eqn:E using rev_ind.
  - destruct (Card_empty now card E) as [H1 H2].
    destruct (Card.Card now card) as [lbl card1]. cbn [fst snd] in H1, H2.
    specialize (IH card1). destruct (render now n card1) as [ls card2].
    cbn [fst] in *. rewrite IH, H2, H1. simpl.
    now rewrite firstn_nil, Nat.sub_0_r.
  - clear IHl. rewrite (Card_last now card l s E).
    specialize (IH (Project.set_metrics card
                      (Some {| Project.github_pushed_at := Some l |}))).
    rewrite samples_set_metrics in IH.
    destruct (render now n _) as [ls card2]. cbn [fst] in *.
    rewrite IH, rev_unit, length_app. cbn [firstn map app length].
    now replace (S n - (length l + 1)) with (n - length l) by lia.
Qed.

End LabelFacts.

(* ================================================================== *)
(** ** How the query shapes the result *)

Module QueryFacts.

Import Js Common StatusMap SearchFacts.

Lemma includes_trans (s t u : string) :
  includes s t = true -> includes t u = true -> includes s u = true.
Proof.
  rewrite !includes_spec. intros (a & b & Es) (a' & b' & Et).
  exists (a ++ a'), (b' ++ b).
  now rewrite Es, Et, <- !app_assoc.
Qed.

Lemma code_units_nil (s : string) : code_units s = [] -> s = ""%string.
Proof.
  destruct s as [|c1 s1]; [reflexivity|]. cbn [code_units]. cbv zeta.
  destruct (byte c1 <? 128)%N; [discriminate|].
  destruct s1 as [|c2 s2]; [discriminate|].
  match goal with |- context [if ?b then _ else _] => destruct b end;
    [discriminate|].
  destruct s2 as [|c3 s3]; [discriminate|].
  match goal with |- context [if ?b then _ else _] => destruct b end;
    [discriminate|].
  destruct s3 as [|c4 s4]; [discriminate|].
  match goal with |- context [if ?b then _ else _] => destruct b end;
    discriminate.
Qed.

Lemma includes_empty (t : string) : includes "" t = true -> t = ""%string.
Proof.
  intros H. apply includes_spec in H. destruct H as (a & b & H).
  apply code_units_nil. simpl in H.
  destruct a; [|discriminate]. now destruct (code_units t).
Qed.

Lemma matches_search_narrows (toLowerCase : string -> string)
  (s1 s2 : string) (p : Project.ProjectInfo) :
  includes s2 s1 = true ->
  matches_search toLowerCase s2 p = true ->
  matches_search toLowerCase s1 p = true.
Proof.
  intros Hinc. unfold matches_search.
  destruct s1 as [|c1 s1']; [reflexivity|].
  destruct s2 as [|c2 s2']; [apply includes_empty in Hinc; discriminate|].
  cbn [nonempty negb orb]. rewrite !orb_true_iff.
  intros [H|H]; [left | right]; eapply includes_trans; eassumption.
Qed.

(** X18.  Extending the query can only narrow the result: when the
    normalised text of one query (trimmed, then lower-cased by the runtime)
    contains that of another, every record shown for the longer one is
    shown for the shorter one, under the same filters. *)
Theorem longer_query_narrows (toLowerCase : string -> string) (s : State)
  (q1 q2 : string) :
  includes (search_of toLowerCase q2) (search_of toLowerCase q1) = true ->
  (forall p,
     passes toLowerCase (filters s) (search_of toLowerCase q2) p = true ->
     passes toLowerCase (filters s) (search_of toLowerCase q1) p = true) /\
  incl (data (setQuery toLowerCase s q2)) (data (setQuery toLowerCase s q1)).
Proof.
  intros Hinc.
  assert (Hp : forall p,
    passes toLowerCase (filters s) (search_of toLowerCase q2) p = true ->
    passes toLowerCase (filters s) (search_of toLowerCase q1) p = true).
  { intros p. rewrite !passes_search_split, !andb_true_iff.
    intros [Hd Hm]. split; [exact Hd|].
    eapply matches_search_narrows; eassumption. }
  split; [exact Hp|].
  intros p. unfold setQuery, filterProjects. cbn [data filters query
    ecosystemProjects]. rewrite !filter_In. intros [H1 H2]. auto.
Qed.

Lemma longer_query_narrows_witness :
  incl (data (setQuery Sample.lower
                (load Sample.lower Sample.palette initial
                   [Sample.acala; Sample.moonbeam])
                "Moonb"))
       (data (setQuery Sample.lower
                (load Sample.lower Sample.palette initial
                   [Sample.acala; Sample.moonbeam])
                "moon")).
Proof.
  apply (longer_query_narrows Sample.lower
           (load Sample.lower Sample.palette initial
              [Sample.acala; Sample.moonbeam])
           "moon" "Moonb").
  reflexivity.
Defined.

End QueryFacts.

(* ================================================================== *)
(** ** The status container: colours, card chips and status selection *)

Module StatusPageFacts.

Import Js Common JsFacts CommonFacts Reference ColourFacts FacetFacts.
Import StatusLoadFacts.

Lemma fst_tally_fold (al : string -> bool) (ls : list string)
  (p : obj bool * obj StatusMap.count) :
  fst (StatusMap.tally al p (Some ls))
  = fold_left (fun o l => if nonempty l && al l then assign o l false else o)
      ls (fst p).
Proof.
  simpl. revert p. induction ls as [|l ls IH]; intros p; simpl; [reflexivity|].
  rewrite IH. now destruct (nonempty l), (al l).
Qed.

Lemma status_traversal_enterable (d : list Project.ProjectInfo) (k : string) :
  In k (StatusMap.traversal (fst (StatusMap.facets d))) -> k <> "__proto__".
Proof.
  unfold StatusMap.traversal. rewrite !in_app_iff. intros H.
  assert (E : enterable k = true).
  { destruct H as [H|[H|[H|H]]].
    - now apply (status_facets_keys d StatusMap.Kcategory k) in H.
    - now apply (status_facets_keys d StatusMap.Kstatus k) in H.
    - now apply (status_facets_keys d StatusMap.Ktarget_audience k) in H.
    - now apply (status_facets_keys d StatusMap.Kecosystem k) in H. }
  apply enterable_spec in E. tauto.
Qed.

(** X20.  In the status container the colours are handed out over the keys
    of the category map, then of the status map, then of the audience map,
    then of the ecosystem map; the value at traversal index [i] (its last
    one, if it occurs several times) has the palette colour of index [i],
    and within a dimension the keys are in the order of their first
    appearance in the records when none of them is an array index. *)
Theorem status_colours_follow_key_order (lower : string -> string)
  (colors : list (list N)) (s : StatusMap.State)
  (d : list Project.ProjectInfo) :
  let f := fst (StatusMap.facets d) in
  StatusMap.colorMap (StatusMap.load lower colors s d)
    = StatusMap.colours colors f /\
  (forall i k,
     nth_error (StatusMap.traversal f) i = Some k ->
     (forall j, i < j -> nth_error (StatusMap.traversal f) j <> Some k) ->
     get_own (StatusMap.colours colors f) k = Some (color_at colors i)) /\
  (forall cat,
     (forall l, In l (carried (fun c => StatusView.values c cat) d) ->
                array_index l = None) ->
     keys (StatusMap.field f cat)
     = first_seen (fun l => enterable l && StatusView.allow cat l)
         (carried (fun c => StatusView.values c cat) d)).
Proof.
  intros f. split; [apply StatusMapFacts.load_facets|]. split.
  - intros i k Hi Hlast. unfold StatusMap.colours.
    rewrite (get_own_paint colors (StatusMap.traversal f) 0 empty i k
               Hi Hlast); [reflexivity|].
    apply (status_traversal_enterable d). eapply nth_error_In. exact Hi.
  - intros cat Hplain. unfold f. rewrite status_pair_fst, fst_tally_fold.
    unfold first_seen.
    rewrite (keys_fold_assign
               (fun l => nonempty l && StatusView.allow cat l)
               (fun l => enterable l && StatusView.allow cat l));
      [reflexivity| |exact Hplain].
    intros l. unfold enterable.
    now destruct (nonempty l), (StatusView.allow cat l),
      (String.eqb l "__proto__").
Qed.

Lemma status_colours_follow_key_order_witness :
  keys (StatusMap.category
          (fst (StatusMap.facets [Sample.talisman; Sample.subscan])))
    = ["Wallet"; "API"].
Proof.
  apply (proj2 (proj2
           (status_colours_follow_key_order Sample.lower Sample.palette
              StatusMap.initial
              [Sample.talisman; Sample.subscan])) StatusMap.Kcategory).
  intros l Hl. simpl in Hl.
  repeat (destruct Hl as [<-|Hl]; [reflexivity|]). destruct Hl.
Defined.

Lemma filter_none {A : Type} (f : A -> bool) (l : list A) :
  (forall x, f x = false) -> filter f l = [].
Proof.
  intros H. induction l as [|x l IH]; simpl; [reflexivity|]. now rewrite H.
Qed.

(** X21.  The status constraint compares the single readiness value for
    equality with every selected status: with one status selected a record
    passes iff that is its technology readiness, and with two different
    statuses selected no record is visible at all. *)
Theorem status_selection (lower : string -> string) (s : StatusMap.State)
  (a b : string) :
  (selected (StatusMap.status (StatusMap.filters s)) = [a] ->
   forall p,
     StatusMap.passes_dimension (StatusMap.filters s) StatusMap.Kstatus p
       = true
     <-> Project.readiness_technology p = Some a) /\
  (In a (selected (StatusMap.status (StatusMap.filters s))) ->
   In b (selected (StatusMap.status (StatusMap.filters s))) ->
   a <> b ->
   StatusMap.data (StatusMap.filterProjects lower s) = []).
Proof.
  split.
  - intros E p. cbn [StatusMap.passes_dimension].
    rewrite StatusFilterFacts.every_equal_spec, E. split.
    + intros H. apply H. now left.
    + intros H c [<-|[]]. exact H.
  - intros Ha Hb Hne. unfold StatusMap.filterProjects.
    cbn [StatusMap.data]. apply filter_none. intros p.
    pose proof (StatusFilterFacts.status_two_selected
                  (StatusMap.filters s) p a b Ha Hb Hne) as H.
    cbn [StatusMap.passes_dimension] in H. unfold StatusMap.passes.
    rewrite H. now rewrite andb_false_r.
Qed.

Lemma status_selection_witness :
  StatusMap.data
    (StatusMap.filterProjects Sample.lower
       (StatusMap.toggle Sample.lower
          (StatusMap.toggle Sample.lower
             (StatusMap.load Sample.lower Sample.palette StatusMap.initial
                [Sample.acala; Sample.moonbeam])
             StatusMap.Kstatus "In production")
          StatusMap.Kstatus "In research")) = [].
Proof.
  apply (proj2 (status_selection Sample.lower
                  (StatusMap.toggle Sample.lower
                     (StatusMap.toggle Sample.lower
                        (StatusMap.load Sample.lower Sample.palette
                           StatusMap.initial
                           [Sample.acala; Sample.moonbeam])
                        StatusMap.Kstatus "In production")
                     StatusMap.Kstatus "In research")
                  "In production" "In research")).
  - vm_compute. tauto.
  - vm_compute. tauto.
  - discriminate.
Defined.

End StatusPageFacts.

(* ================================================================== *)
(** ** Chips on a card *)

Module CardChipFacts.

Import Js Common JsFacts CommonFacts EcosystemMap EcosystemMapFacts.
Import ToggleFacts.

(** X22.  A click on a chip shown on a visible card never hides that card:
    if a record passes the filter and carries the non-empty value [v] in a
    dimension, it still passes after [v] is toggled in that dimension,
    whether the click selects [v] or clears it. *)
Theorem card_chip_keeps_card (f : IFilters) (type : TCategory)
  (p : Project.ProjectInfo) (v : string) :
  wf (field f type) ->
  passes f p = true ->
  v <> ""%string ->
  (exists l, values p type = Some l /\ In v l) ->
  passes (toggleFilterByCategory f type v) p = true.
Proof.
  intros Hwf Hp Hv Hcarried.
  set (f' := toggleFilterByCategory f type v).
  assert (E : field f' type
              = define (field f type) v (negb (truthy_get (field f type) v))).
  { unfold f', toggleFilterByCategory.
    now rewrite field_with_field, (spread_wf _ Hwf). }
  assert (Hdim : forall t, passes_dimension f t p = true ->
                           passes_dimension f' t p = true).
  { intros t Ht.
    assert (Hdec : t = type \/ t <> type)
      by (destruct t, type; (now left) || (right; discriminate)).
    destruct Hdec as [->|Hne].
    - unfold passes_dimension in *. rewrite every_found_spec in *.
      intros c Hc. apply in_selected in Hc. destruct Hc as [Hk Htr].
      destruct (string_dec c v) as [->|Hcv]; [now split|].
      apply Ht. apply in_selected. rewrite E in Hk, Htr.
      apply in_keys_define in Hk. destruct Hk as [Hk|Hk]; [contradiction|].
      split; [exact Hk|]. unfold truthy_get in *.
      now rewrite get_own_define_other in Htr.
    - unfold passes_dimension, f', toggleFilterByCategory.
      now rewrite field_with_field_other. }
  rewrite passes_split in *. rewrite !andb_true_iff in *.
  destruct Hp as [[[H1 H2] H3] H4]. repeat split; now apply Hdim.
Qed.

Lemma card_chip_keeps_card_witness :
  passes
    (toggleFilterByCategory (facets [Sample.acala; Sample.moonbeam])
       Kecosystem "Ethereum")
    Sample.moonbeam = true.
Proof.
  apply (card_chip_keeps_card (facets [Sample.acala; Sample.moonbeam])
           Kecosystem Sample.moonbeam "Ethereum").
  - reflexivity.
  - reflexivity.
  - discriminate.
  - exists ["Moonbeam"; "Ethereum"]. split; [reflexivity|]. simpl. tauto.
Defined.

End CardChipFacts.

(* ================================================================== *)
(** ** The sample catalogue, loaded *)

Module SampleFacts.

Import Js Common.

Lemma visible_records_in_name_order_witness :
  In Sample.moonbeam [Sample.moonbeam; Sample.acala].
Proof.
  apply (proj2 (proj2 (proj2
           (SortFacts.visible_records_in_name_order Sample.palette
              EcosystemMap.initial [Sample.moonbeam; Sample.acala]
              [(EcosystemMap.Kcategory, "EVM")])))).
  vm_compute. tauto.
Defined.

Lemma load_shows_all_records_witness :
  get_own
    (EcosystemMap.category
       (EcosystemMap.filters
          (EcosystemMap.load Sample.palette EcosystemMap.initial
             [Sample.acala; Sample.moonbeam])))
    "EVM" = Some false.
Proof.
  apply (proj1 (FacetFacts.load_shows_all_records Sample.palette
                  EcosystemMap.initial [Sample.acala; Sample.moonbeam])
           EcosystemMap.Kcategory "EVM").
  vm_compute. tauto.
Defined.

Lemma facet_keys_are_carried_values_witness :
  allowed "Moonbeam" = true /\
  exists c ls,
    In c [Sample.acala; Sample.moonbeam] /\
    EcosystemMap.values c EcosystemMap.Kecosystem = Some ls /\
    In "Moonbeam" ls.
Proof.
  apply (proj1 (FacetFacts.facet_keys_are_carried_values
                  [Sample.acala; Sample.moonbeam]
                  EcosystemMap.Kecosystem "Moonbeam")).
  vm_compute. tauto.
Defined.

Lemma counts_follow_filters_witness :
  In "In production"
    (keys (StatusMap.status
             (fst (StatusMap.facets [Sample.acala; Sample.moonbeam])))).
Proof.
  apply (proj2 (proj1 (proj2 (StatusLoadFacts.counts_follow_filters
                                [Sample.acala; Sample.moonbeam]
                                StatusMap.Kstatus)) "In production")).
  split; [reflexivity|]. split; [reflexivity|].
  exists Sample.acala, ["In production"].
  split; [now left|]. split; [reflexivity | now left].
Defined.

Lemma colour_map_covers_facets_witness :
  In "Polkadot"
    (keys (EcosystemMap.colours Sample.palette
             (EcosystemMap.facets [Sample.acala; Sample.moonbeam]))) /\
  ~ In "Ethereum"
    (keys (EcosystemMap.colours Sample.palette
             (EcosystemMap.facets [Sample.acala; Sample.moonbeam]))).
Proof.
  split.
  - apply (proj2 (proj1 (PaletteFacts.colour_map_covers_facets Sample.palette
                           [Sample.acala; Sample.moonbeam] "Polkadot"))).
    vm_compute. tauto.
  - intros H.
    apply (proj1 (proj1 (PaletteFacts.colour_map_covers_facets Sample.palette
                           [Sample.acala; Sample.moonbeam] "Ethereum")))
      in H.
    vm_compute in H.
    repeat (destruct H as [H|H]; [discriminate H|]). destruct H.
Defined.

End SampleFacts.
